(** * qmd: the OpenRouter client ([src/openrouter.ts]) and the LLM
    abstraction layer ([src/llm.ts])

    A shallow embedding of the provider client of qmd and of the module-level
    default instance, with the properties the indexing and retrieval pipeline
    relies on at that boundary.

    - [JS]         the parts of the JavaScript runtime the code calls: strings
                   of UTF-16 code units, [trim], [split], [toLowerCase],
                   truthiness, a backtracking regular-expression matcher and
                   [Array.prototype.sort];
    - [OpenRouter] [class OpenRouterLLM] of [src/openrouter.ts];
    - [DefaultLLM] the module state of [src/llm.ts] ([defaultLLM] and its
                   accessors). *)

From Stdlib Require Import ZArith NArith List String Ascii Bool Lia.
From Stdlib Require Import Sorting.Sorted Sorting.Permutation.
From Stdlib Require Import Floats.PrimFloat Numbers.Cyclic.Int63.Uint63.
From stdpp Require Import base option list sorting countable gmap.

Local Open Scope N_scope.

(* ===================================================================== *)
(** * The JavaScript runtime, as far as the client uses it *)
(* ===================================================================== *)

Module JS.

(** ** Strings: sequences of UTF-16 code units *)

Abbreviation jsstring := (list N) (only parsing).

(** ** Completions: a call returns a value or throws
    (for an [async] function: the promise resolves or rejects).
    [Thrown] carries the message of the [Error]. *)

Inductive outcome (A : Type) : Type :=
| Returned (a : A)
| Thrown (e : jsstring).
Arguments Returned {A} a.
Arguments Thrown {A} e.

#[global] Instance outcome_ret : MRet outcome := @Returned.
#[global] Instance outcome_bind : MBind outcome := fun A B f m =>
  match m with
  | Returned a => f a
  | Thrown e => Thrown e
  end.

(** A completion that is an exception. *)
Definition failed {A} (o : outcome A) : Prop := exists e, o = Thrown e.

(** [try { body } catch (error) { handler }] *)
Definition try_catch {A} (body : outcome A) (handler : jsstring -> outcome A) : outcome A :=
  match body with
  | Returned a => Returned a
  | Thrown e => handler e
  end.

(** A literal of the source text (ASCII), as code units. *)
Definition js (s : string) : jsstring :=
  map N_of_ascii (list_ascii_of_string s).

Definition TypeError : jsstring := js "TypeError".

(** [x!.m()]: calling a method on [undefined] throws. *)
Definition deref {A} (x : option A) : outcome A :=
  match x with
  | Some a => Returned a
  | None => Thrown TypeError
  end.

(** [for (const x of l) { body }] over the variables [s] the body updates. *)
Fixpoint for_of {A S} (l : list A) (body : S -> A -> outcome S) (s : S) : outcome S :=
  match l with
  | [] => mret s
  | x :: l' => s' ← body s x; for_of l' body s'
  end.

(** [!!s] for a string: the empty string is the only falsy one. *)
Definition truthy (s : jsstring) : bool :=
  match s with
  | [] => false
  | _ :: _ => true
  end.

(** [a || b] on strings that may be [undefined]. *)
Definition or_else (a : option jsstring) (b : jsstring) : jsstring :=
  match a with
  | Some s => if truthy s then s else b
  | None => b
  end.

(** [a || b] where both sides may be [undefined]. *)
Definition or_undef (a b : option jsstring) : option jsstring :=
  match a with
  | Some s => if truthy s then Some s else b
  | None => b
  end.

(** [a === b] on strings. *)
Definition str_eqb (a b : jsstring) : bool := bool_decide (a = b).

(** ** Numbers: IEEE 754 doubles *)

Definition number : Type := float.

(** [!!x] for a number: [0], [-0] and [NaN] are falsy. *)
Definition truthy_num (x : number) : bool :=
  negb (PrimFloat.is_zero x || PrimFloat.is_nan x).

Definition num_or (a : option number) (b : number) : number :=
  match a with
  | Some x => if truthy_num x then x else b
  | None => b
  end.

(** An array index or length as a number (exact below 2^53). *)
Definition num_of_nat (n : nat) : number :=
  PrimFloat.of_uint63 (Uint63.of_Z (Z.of_nat n)).

(** ** Character classes (ECMA-262, WhiteSpace and LineTerminator) *)

Definition is_line_terminator (c : N) : bool :=
  (c =? 0x0A) || (c =? 0x0D) || (c =? 0x2028) || (c =? 0x2029).

Definition is_white_space (c : N) : bool :=
  (c =? 0x09) || (c =? 0x0B) || (c =? 0x0C) || (c =? 0x20) || (c =? 0xA0) ||
  (c =? 0xFEFF) || (c =? 0x1680) || ((0x2000 <=? c) && (c <=? 0x200A)) ||
  (c =? 0x202F) || (c =? 0x205F) || (c =? 0x3000).

(** [\s] of a regular expression, and what [trim] strips. *)
Definition is_space (c : N) : bool := is_white_space c || is_line_terminator c.

(** [.] of a regular expression without the [s] flag. *)
Definition is_dot (c : N) : bool := negb (is_line_terminator c).

(** ** [String.prototype.trim] *)

Fixpoint trimStart (s : jsstring) : jsstring :=
  match s with
  | [] => []
  | c :: r => if is_space c then trimStart r else s
  end.

Definition trimEnd (s : jsstring) : jsstring := rev (trimStart (rev s)).

Definition trim (s : jsstring) : jsstring := trimEnd (trimStart s).

(** ** [String.prototype.split] with a one-code-unit separator:
    [cur] holds the piece being read, last code unit first. *)

Fixpoint split_from (sep : N) (cur : jsstring) (s : jsstring) : list jsstring :=
  match s with
  | [] => [rev cur]
  | c :: r => if c =? sep then rev cur :: split_from sep [] r
              else split_from sep (c :: cur) r
  end.

Definition split (s : jsstring) (sep : N) : list jsstring := split_from sep [] s.

(** [pieces.join(sep)] with a one-code-unit separator, the inverse of
    [split]. *)
Fixpoint join (sep : N) (pieces : list jsstring) : jsstring :=
  match pieces with
  | [] => []
  | p :: ps => match ps with
               | [] => p
               | _ :: _ => p ++ sep :: join sep ps
               end
  end.

(** ** Case conversion
    On ASCII the conversions are fixed; on strings with other code units they
    follow the Unicode tables of the runtime, which the development takes as
    parameters. *)

Class UnicodeTables : Type := {
  unicode_toUpperCase : jsstring -> jsstring;
  unicode_toLowerCase : jsstring -> jsstring
}.

Definition is_ascii (c : N) : bool := c <? 128.

Definition ascii_upper (c : N) : N :=
  if (0x61 <=? c) && (c <=? 0x7A) then c - 32 else c.

Definition ascii_lower (c : N) : N :=
  if (0x41 <=? c) && (c <=? 0x5A) then c + 32 else c.

Section CaseConversion.
Context `{UnicodeTables}.

Definition toUpperCase (s : jsstring) : jsstring :=
  if forallb is_ascii s then map ascii_upper s else unicode_toUpperCase s.

Definition toLowerCase (s : jsstring) : jsstring :=
  if forallb is_ascii s then map ascii_lower s else unicode_toLowerCase s.

(** Canonicalize of a regular expression with the [i] flag and without the
    [u] flag (ECMA-262, Canonicalize): upper-case the code unit, unless the
    result is not one code unit or maps a non-ASCII code unit into ASCII. *)
Definition canonicalize (ch : N) : N :=
  match toUpperCase [ch] with
  | [cu] => if (128 <=? ch) && (cu <? 128) then ch else cu
  | _ => ch
  end.
End CaseConversion.

(** [s] is the ASCII word [w] up to the case of its letters. *)
Definition ascii_case_variant (s w : jsstring) : Prop :=
  forallb is_ascii s = true /\ map ascii_lower s = w.

(** The tables that leave every non-ASCII string alone: enough to run the
    model on ASCII text. *)
Definition ascii_only_tables : UnicodeTables :=
  {| unicode_toUpperCase := fun s => s; unicode_toLowerCase := fun s => s |}.

(** ** Regular expressions: the backtracking matcher of ECMA-262,
    for the constructs the client's pattern uses. *)

Inductive regex : Type :=
| Empty
| Char (c : N)                 (* a pattern character *)
| Class (p : N -> bool)        (* [\s], [.] *)
| Seq (r1 r2 : regex)
| Alt (r1 r2 : regex)          (* r1|r2, left first *)
| Star (r : regex)             (* r*, greedy *)
| Plus (r : regex)             (* r+, greedy *)
| Group (n : nat) (r : regex)  (* the n-th capturing parentheses *)
| Bol                          (* ^ without the m flag *)
| Eol.                         (* $ without the m flag *)

Fixpoint lit (w : jsstring) : regex :=
  match w with
  | [] => Empty
  | c :: w' => Seq (Char c) (lit w')
  end.

(** Whether the n-th capturing parentheses occur in a pattern. *)
Fixpoint has_group (n : nat) (r : regex) : bool :=
  match r with
  | Empty | Char _ | Class _ | Bol | Eol => false
  | Seq r1 r2 | Alt r1 r2 => has_group n r1 || has_group n r2
  | Star r1 | Plus r1 => has_group n r1
  | Group m r1 => (m =? n)%nat || has_group n r1
  end.

(** A match state: the index reached, the input from there on, and the
    captures made so far (latest first). *)
Record mstate : Type := MState {
  m_pos : nat;
  m_rest : jsstring;
  m_caps : list (nat * jsstring)
}.

Definition cont : Type := mstate -> option mstate.

Definition advance (st : mstate) : mstate :=
  MState (S (m_pos st)) (tail (m_rest st)) (m_caps st).

Definition capture (n : nat) (from to : mstate) : mstate :=
  MState (m_pos to) (m_rest to)
         ((n, take (m_pos to - m_pos from) (m_rest from)) :: m_caps to).

(** RepeatMatcher with min = 0 and max = infinity: one more iteration first
    (greedy), an iteration that consumes nothing is refused, the continuation
    otherwise. Every iteration consumes input, so [fuel] = what is left of the
    input is enough. *)
Fixpoint repeat_matcher (step : cont -> cont) (k : cont) (fuel : nat) (st : mstate)
  : option mstate :=
  match fuel with
  | O => k st
  | S fuel' =>
      match step (fun st' =>
                    if (length (m_rest st') <? length (m_rest st))%nat
                    then repeat_matcher step k fuel' st'
                    else None) st with
      | Some r => Some r
      | None => k st
      end
  end.

Section Matcher.
Context `{UnicodeTables}.
Variable ignoreCase : bool.

Definition char_matches (pat ch : N) : bool :=
  if ignoreCase then canonicalize ch =? canonicalize pat else ch =? pat.

Fixpoint rmatch (r : regex) (k : cont) (st : mstate) : option mstate :=
  match r with
  | Empty => k st
  | Char c =>
      match m_rest st with
      | ch :: _ => if char_matches c ch then k (advance st) else None
      | [] => None
      end
  | Class p =>
      (* [\s] and [.] are closed under case folding: no code unit
         upper-cases into or out of them, so the [i] flag changes nothing *)
      match m_rest st with
      | ch :: _ => if p ch then k (advance st) else None
      | [] => None
      end
  | Seq r1 r2 => rmatch r1 (rmatch r2 k) st
  | Alt r1 r2 =>
      match rmatch r1 k st with
      | Some res => Some res
      | None => rmatch r2 k st
      end
  | Star r1 => repeat_matcher (rmatch r1) k (length (m_rest st)) st
  | Plus r1 =>
      rmatch r1 (fun st' => repeat_matcher (rmatch r1) k (length (m_rest st')) st') st
  | Group n r1 => rmatch r1 (fun st' => k (capture n st st')) st
  | Bol => if (m_pos st =? 0)%nat then k st else None
  | Eol => match m_rest st with [] => k st | _ :: _ => None end
  end.

(** RegExpBuiltinExec of a pattern without the [g] and [y] flags: the first
    index, from 0 on, at which the pattern matches. *)
Fixpoint exec_from (r : regex) (pos : nat) (s : jsstring) : option (list (nat * jsstring)) :=
  match rmatch r Some (MState pos s []) with
  | Some st => Some (m_caps st)
  | None =>
      match s with
      | [] => None
      | _ :: s' => exec_from r (S pos) s'
      end
  end.
End Matcher.

(** [str.match(re)] for a pattern without the [g] flag: [null] or the match. *)
Definition String_match `{UnicodeTables} (s : jsstring) (ignoreCase : bool) (r : regex)
  : option (list (nat * jsstring)) :=
  exec_from ignoreCase r 0 s.

(** [m[n]] of a match: the n-th capture, [undefined] when the group did not
    take part. *)
Fixpoint group (m : list (nat * jsstring)) (n : nat) : option jsstring :=
  match m with
  | [] => None
  | (i, s) :: m' => if (i =? n)%nat then Some s else group m' n
  end.

(** ** Property lookup on an object literal with numeric values
    [o[k]] finds an own property, else a member of [Object.prototype], else
    [undefined]. *)

Inductive value : Type :=
| VNumber (x : Z)
| VInherited (k : jsstring)   (* a function or object of [Object.prototype] *)
| VUndefined.

Definition Object_prototype_keys : list jsstring :=
  map js ["constructor"; "__defineGetter__"; "__defineSetter__"; "hasOwnProperty";
          "__lookupGetter__"; "__lookupSetter__"; "isPrototypeOf";
          "propertyIsEnumerable"; "toString"; "valueOf"; "__proto__";
          "toLocaleString"]%string.

Definition get_property (o : gmap jsstring Z) (k : jsstring) : value :=
  match o !! k with
  | Some x => VNumber x
  | None => if bool_decide (k ∈ Object_prototype_keys) then VInherited k else VUndefined
  end.

(** [v || d] for a looked-up value and a numeric default. *)
Definition value_or (v : value) (d : Z) : value :=
  match v with
  | VNumber x => if (x =? 0)%Z then VNumber d else v
  | VInherited _ => v
  | VUndefined => VNumber d
  end.

(** ** [Array.prototype.sort] with a comparator
    The sort is stable and, for a consistent comparator, its result is the
    sorted arrangement whatever the engine's algorithm: insertion that keeps
    an element behind the ones it does not precede. *)

Section Sort.
Context {A : Type}.
Variable compareFn : A -> A -> Z.

Fixpoint sort_insert (x : A) (l : list A) : list A :=
  match l with
  | [] => [x]
  | y :: l' => if (compareFn x y <? 0)%Z then x :: l else y :: sort_insert x l'
  end.

Definition sort (l : list A) : list A :=
  fold_left (fun acc x => sort_insert x acc) l [].
End Sort.

End JS.

(* ===================================================================== *)
(** * [src/llm.ts]: the types of the LLM interface *)
(* ===================================================================== *)

Module LLM.
Import JS.

(** [EmbeddingResult = { embedding: number[]; model: string }] *)
Record EmbeddingResult : Type := mkEmbeddingResult {
  embedding : list number;
  embedding_model : jsstring
}.

(** [GenerateResult = { text; model; logprobs?; done }]; the client never
    sets [logprobs]. *)
Record GenerateResult : Type := mkGenerateResult {
  text : jsstring;
  generate_model : jsstring;
  done : bool
}.

(** [RerankDocumentResult = { file; score; index }] *)
Record RerankDocumentResult : Type := mkRerankDocumentResult {
  result_file : jsstring;
  score : number;
  index : nat
}.

(** [RerankResult = { results; model }] *)
Record RerankResult : Type := mkRerankResult {
  results : list RerankDocumentResult;
  rerank_model : jsstring
}.

(** [ModelInfo = { name; exists; path? }] *)
Record ModelInfo : Type := mkModelInfo {
  name : jsstring;
  model_exists : bool
}.

(** [GenerateOptions = { model?; maxTokens?; temperature? }] *)
Record GenerateOptions : Type := mkGenerateOptions {
  maxTokens : option number;
  temperature : option number
}.

(** [Queryable = { type: QueryType; text: string }]. [QueryType] is the union
    of the string literals "lex", "vec" and "hyde"; at run time the field
    holds whatever string the code stores, so it is a string here. *)
Record Queryable : Type := mkQueryable {
  qtype : jsstring;
  qtext : jsstring
}.

(** [RerankDocument = { file; text; title? }] *)
Record RerankDocument : Type := mkRerankDocument {
  file : jsstring;
  doc_text : jsstring;
  title : option jsstring
}.

End LLM.

(* ===================================================================== *)
(** * [src/openrouter.ts]: [class OpenRouterLLM] *)
(* ===================================================================== *)

Module OpenRouter.
Import JS LLM.

Definition OPENROUTER_API_BASE : jsstring := js "https://openrouter.ai/api/v1".
Definition DEFAULT_EMBED_MODEL : jsstring := js "openai/text-embedding-3-large".
Definition DEFAULT_CHAT_MODEL : jsstring := js "openai/gpt-4o-mini".

Definition EMBEDDING_DIMENSIONS : gmap jsstring Z :=
  <[js "openai/text-embedding-3-large" := 3072%Z]>
  (<[js "openai/text-embedding-3-small" := 1536%Z]>
  (<[js "openai/text-embedding-ada-002" := 1536%Z]> ∅)).

(** [OpenRouterConfig]: every field is optional. *)
Record OpenRouterConfig : Type := mkConfig {
  cfg_apiKey : option jsstring;
  cfg_embedModel : option jsstring;
  cfg_chatModel : option jsstring;
  cfg_baseUrl : option jsstring
}.

(** [config = {}] *)
Definition empty_config : OpenRouterConfig := mkConfig None None None None.

(** The private fields of an instance. *)
Record OpenRouterLLM : Type := mkLLM {
  apiKey : jsstring;
  embedModel : jsstring;
  chatModel : jsstring;
  baseUrl : jsstring
}.

(** [process.env] *)
Abbreviation Env := (gmap jsstring jsstring) (only parsing).

(** [constructor(config: OpenRouterConfig = {})] *)
Definition constructor (env : Env) (config : OpenRouterConfig) : outcome OpenRouterLLM :=
  let apiKey := or_else (or_undef (cfg_apiKey config) (env !! js "OPENROUTER_API_KEY")) (js "") in
  if negb (truthy apiKey) then
    Thrown (js "OpenRouter API key required. Set OPENROUTER_API_KEY environment variable.")
  else
    Returned
      {| apiKey := apiKey;
         embedModel := or_else (or_undef (cfg_embedModel config) (env !! js "QMD_EMBED_MODEL"))
                               DEFAULT_EMBED_MODEL;
         chatModel := or_else (or_undef (cfg_chatModel config) (env !! js "QMD_CHAT_MODEL"))
                              DEFAULT_CHAT_MODEL;
         baseUrl := or_else (cfg_baseUrl config) OPENROUTER_API_BASE |}.

(** [getEmbeddingDimensions()] *)
Definition getEmbeddingDimensions (this : OpenRouterLLM) : outcome value :=
  Returned (value_or (get_property EMBEDDING_DIMENSIONS (embedModel this)) 3072).

(** ** The provider: what [request] sends and what comes back *)

(** [input: text] or [input: texts] *)
Inductive EmbedInput : Type :=
| InputText (t : jsstring)
| InputTexts (ts : list jsstring).

Inductive Body : Type :=
| EmbeddingsBody (model : jsstring) (input : EmbedInput)
| ChatBody (model : jsstring) (content : jsstring) (max_tokens temperature : number).

Record HttpRequest : Type := mkRequest {
  url : jsstring;
  authorization : jsstring;
  body : Body
}.

(** [{ embedding: number[]; index: number }] *)
Record EmbeddingItem : Type := mkItem {
  item_embedding : list number;
  item_index : Z
}.

(** [{ message: { content: string } }] *)
Record Message : Type := mkMessage { content : jsstring }.
Record Choice : Type := mkChoice { message : Message }.

(** The parsed JSON of a response, in the two shapes the client reads. *)
Inductive Json : Type :=
| EmbeddingsJson (data : list EmbeddingItem) (model : jsstring)
| ChatJson (choices : list Choice) (model : jsstring).

(** The network: [fetch] followed by [response.json()]. A rejected fetch, a
    body that is not JSON and a status that is not ok (which [request] turns
    into [throw new Error(...)]) are all [Thrown]. *)
Abbreviation Provider := (HttpRequest -> outcome Json) (only parsing).

Section Methods.
Context `{UnicodeTables}.
Variable provider : Provider.
Variable this : OpenRouterLLM.

(** [private async request<T>(endpoint, body)] *)
Definition request (endpoint : jsstring) (b : Body) : outcome Json :=
  provider {| url := baseUrl this ++ endpoint;
              authorization := js "Bearer " ++ apiKey this;
              body := b |}.

(** [response.data] and [response.choices]: reading a property of
    [undefined] throws. *)
Definition response_data (r : Json) : outcome (list EmbeddingItem * jsstring) :=
  match r with
  | EmbeddingsJson data model => Returned (data, model)
  | ChatJson _ _ => Thrown TypeError
  end.

Definition response_choices (r : Json) : outcome (list Choice * jsstring) :=
  match r with
  | ChatJson choices model => Returned (choices, model)
  | EmbeddingsJson _ _ => Thrown TypeError
  end.

(** [async embed(text, options = {})] *)
Definition embed (text : jsstring) : outcome (option EmbeddingResult) :=
  try_catch
    (response ← request (js "/embeddings") (EmbeddingsBody (embedModel this) (InputText text));
     '(data, model) ← response_data response;
     mret (Some {| embedding := default [] (item_embedding <$> head data);
                   embedding_model := model |}))
    (fun error => mret None).

(** [async embedBatch(texts)] *)
Definition embedBatch (texts : list jsstring) : outcome (list (option EmbeddingResult)) :=
  if (length texts =? 0)%nat then mret []
  else
    try_catch
      (response ← request (js "/embeddings") (EmbeddingsBody (embedModel this) (InputTexts texts));
       '(data, model) ← response_data response;
       let sorted := sort (fun a b => (item_index a - item_index b)%Z) data in
       mret (map (fun item => Some {| embedding := item_embedding item;
                                      embedding_model := model |}) sorted))
      (fun error => mret (map (fun _ => None) texts)).

(** [async generate(prompt, options = {})] *)
Definition generate (prompt : jsstring) (options : GenerateOptions)
  : outcome (option GenerateResult) :=
  try_catch
    (response ← request (js "/chat/completions")
                  (ChatBody (chatModel this) prompt
                            (num_or (maxTokens options) 500%float)
                            (num_or (temperature options) 0%float));
     '(choices, model) ← response_choices response;
     mret (Some {| text := or_else (content <$> (message <$> head choices)) (js "");
                   generate_model := model;
                   done := true |}))
    (fun error => mret None).

(** The prompt of [expandQuery], a template over the query and the
    optional context. *)
Definition expand_prompt (query : jsstring) (context : option jsstring) : jsstring :=
  js "You are a search query optimizer. Generate alternative queries for semantic search.

Original Query: " ++ query ++ js "
" ++ (match context with
    | Some c => if truthy c then js "
Context: " ++ c else js ""
    | None => js ""
    end) ++ js "

Generate exactly 3 outputs:
1. A rephrased version of the query using different words
2. A more specific version with additional relevant terms
3. A hypothetical document snippet (1-2 sentences) that would answer this query

Format your response EXACTLY as:
vec: [rephrased query]
vec: [specific query]
hyde: [hypothetical document passage]

Do not include any other text.".

(** [/^(vec|hyde):\s*(.+)$/i] *)
Definition line_pattern : regex :=
  Seq Bol
 (Seq (Group 1 (Alt (lit (js "vec")) (lit (js "hyde"))))
 (Seq (Char 58)                          (* ":" *)
 (Seq (Star (Class is_space))
 (Seq (Group 2 (Plus (Class is_dot)))
      Eol)))).

(** The body of the loop over the lines of the generated text. *)
Definition expand_line (query : jsstring) (queryables : list Queryable) (line : jsstring)
  : outcome (list Queryable) :=
  match String_match line true line_pattern with
  | Some m =>
      m1 ← deref (group m 1);
      let type := toLowerCase m1 in
      m2 ← deref (group m 2);
      let text := trim m2 in
      if truthy text && negb (str_eqb text query)
      then mret (queryables ++ [{| qtype := type; qtext := text |}])
      else mret queryables
  | None => mret queryables
  end.

(** [expandQuery] from the completion of its call of [this.generate]. *)
Definition expandQuery_from (generated : outcome (option GenerateResult)) (query : jsstring)
  : outcome (list Queryable) :=
  try_catch
    (result ← generated;
     match result with
     | None => mret [{| qtype := js "vec"; qtext := query |}]
     | Some result =>
         let lines := split (trim (text result)) 10 in
         queryables ← for_of lines (expand_line query) [];
         mret ({| qtype := js "vec"; qtext := query |} :: queryables)
     end)
    (fun error => mret [{| qtype := js "vec"; qtext := query |}]).

(** [async expandQuery(query, options = {})]; of the options only
    [context] is read. *)
#[warnings="-inexact-float"]
Definition expandQuery (query : jsstring) (context : option jsstring)
  : outcome (list Queryable) :=
  expandQuery_from
    (generate (expand_prompt query context)
              {| maxTokens := Some 300%float; temperature := Some 0.7%float |})
    query.

(** The one request [expandQuery] sends, through [generate]. *)
#[warnings="-inexact-float"]
Definition expand_request (query : jsstring) (context : option jsstring) : HttpRequest :=
  {| url := baseUrl this ++ js "/chat/completions";
     authorization := js "Bearer " ++ apiKey this;
     body := ChatBody (chatModel this) (expand_prompt query context) 300%float 0.7%float |}.

(** A generated variant: typed "vec" or "hyde", with a non-empty text other
    than the query. *)
Definition variant_of (query : jsstring) (q : Queryable) : Prop :=
  (qtype q = js "vec" \/ qtype q = js "hyde") /\ qtext q <> [] /\ qtext q <> query.

(** [async modelExists(model)] *)
Definition modelExists (model : jsstring) : outcome ModelInfo :=
  mret {| name := model; model_exists := true |}.

(** [async rerank(query, documents, options = {})] *)
#[warnings="-inexact-float"]
Definition rerank (query : jsstring) (documents : list RerankDocument) : outcome RerankResult :=
  mret {| results := imap (fun index doc =>
                             {| result_file := file doc;
                                score := (1 - num_of_nat index * 0.01)%float;
                                index := index |}) documents;
          rerank_model := js "none" |}.

(** [async dispose()]: nothing to dispose. *)
Definition dispose : outcome unit := mret tt.
End Methods.

(** ** Lines in the format the prompt asks for
    A word ("vec" or "hyde", in any letter case), a colon, white space within
    the line, and a rest that starts with a code unit other than white
    space and holds no line terminator. *)
Record formatted_line : Type := mkLine {
  fl_word : jsstring;
  fl_space : jsstring;
  fl_first : N;
  fl_rest : jsstring
}.

Definition render_line (l : formatted_line) : jsstring :=
  fl_word l ++ 58 :: fl_space l ++ fl_first l :: fl_rest l.

Definition well_formed_line (l : formatted_line) : Prop :=
  (ascii_case_variant (fl_word l) (js "vec") \/ ascii_case_variant (fl_word l) (js "hyde")) /\
  Forall (fun c => is_space c = true /\ c <> 10) (fl_space l) /\
  is_space (fl_first l) = false /\
  Forall (fun c => is_dot c = true) (fl_first l :: fl_rest l).

(** The variant such a line stands for. *)
Definition read_line (l : formatted_line) : Queryable :=
  {| qtype := map ascii_lower (fl_word l); qtext := trim (fl_first l :: fl_rest l) |}.

End OpenRouter.

(* ===================================================================== *)
(** * [src/llm.ts]: the default instance *)
(* ===================================================================== *)

Module DefaultLLM.
Import JS LLM OpenRouter.

(** An instance is known by its reference: its position among the objects
    created so far. *)
Abbreviation ref := nat (only parsing).

(** What the module does to its instance, in order. *)
Inductive event : Type :=
| Assign (v : option ref)   (* defaultLLM = v *)
| Dispose (r : ref).        (* r.dispose() *)

Record state : Type := mkState {
  env : Env;                       (* process.env *)
  objects : list OpenRouterLLM;    (* the instances constructed so far *)
  defaultLLM : option ref;         (* let defaultLLM: OpenRouterLLM | null *)
  log : list event
}.

(** [let defaultLLM: OpenRouterLLM | null = null] *)
Definition initial (e : Env) : state := mkState e [] None [].

(** The instance held, if any, is one of the objects constructed. *)
Definition well_formed (s : state) : Prop :=
  forall r, defaultLLM s = Some r -> (r < length (objects s))%nat.

(** Module code: a state transformer that returns or throws. *)
Definition M (A : Type) : Type := state -> outcome A * state.

#[global] Instance M_ret : MRet M := fun A a s => (Returned a, s).
#[global] Instance M_bind : MBind M := fun A B f m s =>
  match m s with
  | (Returned a, s') => f a s'
  | (Thrown e, s') => (Thrown e, s')
  end.

(** [new OpenRouterLLM(config)] *)
Definition new_OpenRouterLLM (config : OpenRouterConfig) : M ref := fun s =>
  match constructor (env s) config with
  | Returned o =>
      (Returned (length (objects s)),
       mkState (env s) (objects s ++ [o]) (defaultLLM s) (log s))
  | Thrown e => (Thrown e, s)
  end.

(** [defaultLLM = v] *)
Definition assign (v : option ref) : M unit := fun s =>
  (Returned tt, mkState (env s) (objects s) v (log s ++ [Assign v])).

(** [await r.dispose()] *)
Definition call_dispose (r : ref) : M unit := fun s =>
  match OpenRouter.dispose with
  | Returned _ => (Returned tt, mkState (env s) (objects s) (defaultLLM s) (log s ++ [Dispose r]))
  | Thrown e => (Thrown e, s)
  end.

(** reading [defaultLLM] *)
Definition read : M (option ref) := fun s => (Returned (defaultLLM s), s).

(** [export function getDefaultLLM()] *)
Definition getDefaultLLM : M ref :=
  held ← read;
  match held with
  | None => r ← new_OpenRouterLLM empty_config; _ ← assign (Some r); mret r
  | Some r => mret r
  end.

(** [export function getDefaultLlamaCpp()] *)
Definition getDefaultLlamaCpp : M ref := getDefaultLLM.

(** [export function setDefaultLLM(llm)] *)
Definition setDefaultLLM (llm : option ref) : M unit := assign llm.

(** [export async function disposeDefaultLLM()] *)
Definition disposeDefaultLLM : M unit :=
  held ← read;
  match held with
  | Some r => _ ← call_dispose r; assign None
  | None => mret tt
  end.




End DefaultLLM.

(* ===================================================================== *)
(** * Concrete inputs used by the examples below *)
(* ===================================================================== *)

Module Samples.
Import JS LLM OpenRouter DefaultLLM.

(** A client as the constructor builds it from a key and the defaults. *)
Definition default_client : OpenRouterLLM :=
  mkLLM (js "sk-or-test") DEFAULT_EMBED_MODEL DEFAULT_CHAT_MODEL OPENROUTER_API_BASE.

(** A client configured with an embedding model outside the table. *)
Definition custom_client : OpenRouterLLM :=
  mkLLM (js "sk-or-test") (js "acme/embed-v1") DEFAULT_CHAT_MODEL OPENROUTER_API_BASE.

(** A provider that is down: every request throws. *)
Definition provider_down : Provider :=
  fun _ => Thrown (js "OpenRouter API error (503): unavailable").

(** A provider that answers every request with no data items. *)
Definition provider_no_data : Provider :=
  fun _ => Returned (EmbeddingsJson [] DEFAULT_EMBED_MODEL).

(** Three texts, the items that answer them in order, and a provider that
    sends the items back as 2, 0, 1. *)
Definition three_texts : list jsstring :=
  [js "Hello world"; js "Test text"; js "Another document"].

Definition items_in_order : list EmbeddingItem :=
  [mkItem [0.5%float; 1%float] 0; mkItem [0.25%float; 2%float] 1; mkItem [0.125%float; 3%float] 2].

Definition items_rearranged : list EmbeddingItem :=
  [mkItem [0.125%float; 3%float] 2; mkItem [0.5%float; 1%float] 0; mkItem [0.25%float; 2%float] 1].

Definition provider_rearranging : Provider :=
  fun _ => Returned (EmbeddingsJson items_rearranged DEFAULT_EMBED_MODEL).

(** A generated text as the prompt asks for it, with a repetition of the
    query, an empty variant and a line of chatter. *)
Definition generated_text : jsstring :=
  js "vec: login configuration
VEC: how to configure authentication
hyde:   Set AUTH_SECRET to configure authentication.  
vec:
Sure, here you go
Hyde: x".

Definition provider_chatting : Provider :=
  fun _ => Returned (ChatJson [mkChoice (mkMessage generated_text)] DEFAULT_CHAT_MODEL).

(** A provider that answers chat requests as [provider_chatting] does and
    refuses every other request. *)
(** The three lines the prompt asks for. *)
Definition formatted_lines : list formatted_line :=
  [ mkLine (js "vec") (js " ") 108 (js "ogin configuration");
    mkLine (js "VEC") (js "  ") 115 (js "et up JWT and OAuth");
    mkLine (js "hyde") (js " ") 83 (js "et AUTH_SECRET to a random string.") ].

Definition provider_chat_only : Provider :=
  fun req =>
    match body req with
    | ChatBody _ _ _ _ =>
        Returned (ChatJson [mkChoice (mkMessage generated_text)] DEFAULT_CHAT_MODEL)
    | EmbeddingsBody _ _ => Thrown (js "OpenRouter API error (404): not found")
    end.

(** An environment with a key, and one without. *)
Definition env_with_key : Env := <[js "OPENROUTER_API_KEY" := js "sk-or-test"]> ∅.
Definition env_without_key : Env := ∅.

(** The module state of a fresh process that has a key. *)
Definition fresh_process : state := initial env_with_key.

Definition three_documents : list RerankDocument :=
  [ mkRerankDocument (js "a.md") (js "first") None;
    mkRerankDocument (js "b.md") (js "second") None;
    mkRerankDocument (js "c.md") (js "third") None ].

End Samples.

(* ===================================================================== *)
(** * Facts about the runtime model *)
(* ===================================================================== *)

Module JSFacts.
Import JS.

(** ** [sort] with a comparator that subtracts integer keys *)

Section SortByKey.
Context {A : Type}.
Variable key : A -> Z.

Let by_key : A -> A -> Z := fun a b => (key a - key b)%Z.
Let key_le : relation A := fun a b => (key a <= key b)%Z.

Lemma sort_insert_Permutation (x : A) (l : list A) :
  sort_insert by_key x l ≡ₚ x :: l.
Proof.
  induction l as [|y l IH]; cbn; [reflexivity|].
  destruct (by_key x y <? 0)%Z; [reflexivity|].
  rewrite IH. apply Permutation_swap.
Qed.

Lemma sort_fold_Permutation (l acc : list A) :
  fold_left (fun acc x => sort_insert by_key x acc) l acc ≡ₚ l ++ acc.
Proof.
  revert acc. induction l as [|x l IH]; intros acc; cbn; [reflexivity|].
  rewrite IH, sort_insert_Permutation. symmetry. apply Permutation_middle.
Qed.

Lemma sort_Permutation (l : list A) : sort by_key l ≡ₚ l.
Proof. unfold sort. rewrite sort_fold_Permutation. now rewrite app_nil_r. Qed.

Lemma sort_insert_StronglySorted (x : A) (l : list A) :
  StronglySorted key_le l -> StronglySorted key_le (sort_insert by_key x l).
Proof.
  induction 1 as [|y l Hl IH Hy]; cbn.
  - repeat constructor.
  - destruct (by_key x y <? 0)%Z eqn:E.
    + apply Z.ltb_lt in E. constructor; [now constructor|].
      constructor; [unfold key_le, by_key in *; lia|].
      eapply Forall_impl; [exact Hy|]. unfold key_le, by_key in *. intros; cbn in *; lia.
    + apply Z.ltb_ge in E. constructor; [exact IH|].
      rewrite sort_insert_Permutation. constructor; [|exact Hy].
      unfold key_le, by_key in *. lia.
Qed.

Lemma sort_fold_StronglySorted (l acc : list A) :
  StronglySorted key_le acc ->
  StronglySorted key_le (fold_left (fun acc x => sort_insert by_key x acc) l acc).
Proof.
  revert acc. induction l as [|x l IH]; intros acc Hacc; cbn; [exact Hacc|].
  apply IH, sort_insert_StronglySorted, Hacc.
Qed.

Lemma sort_StronglySorted (l : list A) : StronglySorted key_le (sort by_key l).
Proof. apply sort_fold_StronglySorted. constructor. Qed.

(** A list whose keys count up from [off] is sorted. *)
Lemma counting_keys_StronglySorted (off : nat) (l : list A) :
  (forall (i : nat) x, l !! i = Some x -> key x = Z.of_nat (off + i)) ->
  StronglySorted key_le l.
Proof.
  revert off. induction l as [|y l IH]; intros off Hl; constructor.
  - apply (IH (S off)). intros i x Hx.
    rewrite (Hl (S i) x Hx). f_equal. lia.
  - apply Forall_forall. intros x Hx.
    apply list_elem_of_lookup in Hx as [i Hi].
    unfold key_le. rewrite (Hl 0%nat y eq_refl), (Hl (S i) x Hi). lia.
Qed.

(** Sorting any rearrangement of a list whose keys are 0, 1, 2, ... in this
    order gives that list back. *)
Lemma sort_rearranged (l l' : list A) :
  (forall (i : nat) x, l !! i = Some x -> key x = Z.of_nat i) ->
  l' ≡ₚ l ->
  sort by_key l' = l.
Proof.
  intros Hl Hperm.
  apply (StronglySorted_unique_strong key_le).
  - intros x1 x2 H1 H2 Hle1 Hle2.
    rewrite sort_Permutation, Hperm in H1.
    apply list_elem_of_lookup in H1 as [i1 H1].
    apply list_elem_of_lookup in H2 as [i2 H2].
    pose proof (Hl _ _ H1) as K1. pose proof (Hl _ _ H2) as K2.
    unfold key_le in Hle1, Hle2.
    assert (i1 = i2) as -> by lia. congruence.
  - apply sort_StronglySorted.
  - apply (counting_keys_StronglySorted 0). exact Hl.
  - now rewrite sort_Permutation.
Qed.

End SortByKey.

(** ** The matcher *)

Section MatcherFacts.
Context `{UnicodeTables}.

(** A continuation that leaves the n-th capture as it finds it. *)
Let keeps (n : nat) (k : cont) : Prop :=
  forall st res, k st = Some res -> group (m_caps res) n = group (m_caps st) n.

Lemma repeat_matcher_keeps (n : nat) (step : cont -> cont) (k : cont) (fuel : nat) :
  (forall k', keeps n k' -> keeps n (step k')) ->
  keeps n k ->
  keeps n (repeat_matcher step k fuel).
Proof.
  intros Hstep Hk. induction fuel as [|fuel IH]; intros st res; cbn [repeat_matcher]; [apply Hk|].
  destruct (step _ st) as [r|] eqn:E.
  - intros [= ->]. revert E. apply Hstep.
    unfold keeps. intros st' res'. destruct (Nat.ltb _ _); [apply IH|discriminate].
  - apply Hk.
Qed.

(** Matching a pattern without the n-th parentheses does not touch the n-th
    capture. *)
Lemma rmatch_keeps (ic : bool) (n : nat) (r : regex) :
  has_group n r = false ->
  forall k, keeps n k -> keeps n (rmatch ic r k).
Proof.
  induction r as [|c|p|r1 IH1 r2 IH2|r1 IH1 r2 IH2|r1 IH1|r1 IH1|m r1 IH1| |];
    cbn [has_group]; intros Hno k Hk st res; cbn [rmatch].
  - apply Hk.
  - destruct (m_rest st) as [|ch rest]; [discriminate|].
    destruct (char_matches ic c ch); [|discriminate]. intros Hres. apply (Hk _ _ Hres).
  - destruct (m_rest st) as [|ch rest]; [discriminate|].
    destruct (p ch); [|discriminate]. intros Hres. apply (Hk _ _ Hres).
  - apply orb_false_elim in Hno as [Hno1 Hno2]. apply IH1; [exact Hno1|]. now apply IH2.
  - apply orb_false_elim in Hno as [Hno1 Hno2].
    destruct (rmatch ic r1 k st) as [r|] eqn:E.
    + intros [= ->]. revert E. now apply IH1.
    + now apply IH2.
  - apply repeat_matcher_keeps; [|exact Hk]. intros k'. now apply IH1.
  - apply IH1; [exact Hno|]. intros st' res'.
    apply repeat_matcher_keeps; [|exact Hk]. intros k'. now apply IH1.
  - apply orb_false_elim in Hno as [Hm Hno1]. apply Nat.eqb_neq in Hm.
    apply IH1; [exact Hno1|]. intros st' res' Hres.
    rewrite (Hk _ _ Hres). cbn. now rewrite (proj2 (Nat.eqb_neq m n) Hm).
  - destruct (_ =? _)%nat; [apply Hk|discriminate].
  - destruct (m_rest st); [apply Hk|discriminate].
Qed.

(** A literal matches a prefix of the input of its own length, code unit by
    code unit, and moves on behind it. *)
Lemma rmatch_lit (ic : bool) (w : jsstring) (k : cont) (st res : mstate) :
  rmatch ic (lit w) k st = Some res ->
  exists pre rest,
    m_rest st = pre ++ rest /\
    Forall2 (fun ch c => char_matches ic c ch = true) pre w /\
    k (MState (m_pos st + length w) rest (m_caps st)) = Some res.
Proof.
  revert st. induction w as [|c w IH]; intros st; cbn [lit rmatch].
  - intros Hk. exists [], (m_rest st). repeat split; [constructor|].
    destruct st as [pos rest caps]. cbn. now rewrite Nat.add_0_r.
  - destruct (m_rest st) as [|ch rest] eqn:Hrest; [discriminate|].
    destruct (char_matches ic c ch) eqn:Hc; [|discriminate].
    intros Hres. apply IH in Hres as (pre & rest' & Hr & Hpre & Hk).
    unfold advance in Hr, Hk. rewrite Hrest in Hr. cbn in Hr, Hk.
    exists (ch :: pre), rest'. repeat split.
    + cbn. now rewrite Hr.
    + now constructor.
    + cbn [length]. now rewrite Nat.add_succ_r.
Qed.

(** A successful [exec_from] is a successful run of the matcher from some
    index, started without captures. *)
Lemma exec_from_rmatch (ic : bool) (r : regex) (pos : nat) (s : jsstring) m :
  exec_from ic r pos s = Some m ->
  exists pos' s' res, rmatch ic r Some (MState pos' s' []) = Some res /\ m = m_caps res.
Proof.
  revert pos. induction s as [|c s IH]; intros pos; cbn [exec_from].
  - destruct (rmatch ic r Some _) as [res|] eqn:E; [|discriminate].
    intros [= <-]. eauto.
  - destruct (rmatch ic r Some _) as [res|] eqn:E.
    + intros [= <-]. eauto.
    + apply IH.
Qed.

(** ** Case-insensitive comparison with an ASCII lower-case letter *)

Lemma canonicalize_ascii (c : N) : c < 128 -> canonicalize c = ascii_upper c.
Proof.
  intros Hc. unfold canonicalize, toUpperCase. cbn [forallb]. unfold is_ascii.
  rewrite (proj2 (N.ltb_lt c 128) Hc). cbn.
  now rewrite (proj2 (N.leb_gt 128 c) Hc).
Qed.

Lemma canonicalize_non_ascii (ch : N) : 128 <= ch -> 128 <= canonicalize ch.
Proof.
  intros Hch. unfold canonicalize.
  destruct (toUpperCase [ch]) as [|cu [|]]; try assumption.
  rewrite (proj2 (N.leb_le 128 ch) Hch). cbn.
  destruct (cu <? 128) eqn:E; [assumption|]. now apply N.ltb_ge in E.
Qed.

Lemma ascii_upper_lt (c : N) : c < 128 -> ascii_upper c < 128.
Proof. unfold ascii_upper. destruct (_ && _); lia. Qed.

Lemma matches_lower_letter (c ch : N) :
  0x61 <= c <= 0x7A ->
  char_matches true c ch = true ->
  is_ascii ch = true /\ ascii_lower ch = c.
Proof.
  intros Hc Hm. unfold char_matches in Hm. apply N.eqb_eq in Hm.
  rewrite (canonicalize_ascii c) in Hm by lia.
  assert (Hch : ch < 128).
  { destruct (N.lt_ge_cases ch 128) as [?|Hge]; [assumption|].
    apply canonicalize_non_ascii in Hge. pose proof (ascii_upper_lt c). lia. }
  rewrite (canonicalize_ascii ch Hch) in Hm.
  split; [now apply N.ltb_lt|].
  revert Hm. unfold ascii_upper, ascii_lower.
  repeat match goal with
         | |- context [?a <=? ?b] => destruct (N.leb_spec a b)
         end; cbn [andb]; lia.
Qed.

Lemma matches_lower_word (pre w : jsstring) :
  Forall (fun c => 0x61 <= c <= 0x7A) w ->
  Forall2 (fun ch c => char_matches true c ch = true) pre w ->
  toLowerCase pre = w.
Proof.
  intros Hw Hpre.
  assert (Hall : forallb is_ascii pre = true /\ map ascii_lower pre = w).
  { induction Hpre as [|ch c pre w Hc Hpre IH]; [split; reflexivity|].
    inversion Hw as [|? ? Hc' Hw']; subst.
    destruct (matches_lower_letter c ch Hc' Hc) as [Ha Hl].
    destruct (IH Hw') as [IHa IHl]. cbn. rewrite Ha, Hl, IHl. auto. }
  destruct Hall as [Ha Hl]. unfold toLowerCase. now rewrite Ha.
Qed.

End MatcherFacts.

End JSFacts.

(* ===================================================================== *)
(** * Properties of [class OpenRouterLLM] *)
(* ===================================================================== *)

Module OpenRouterSpec.
Import JS LLM OpenRouter DefaultLLM Samples.

(** ** rerank *)

Example rerank_three_documents :
  (fun r => map (fun d => (result_file d, index d)) (results r)) <$>
    (match rerank (js "query") three_documents with Returned r => Some r | Thrown _ => None end)
  = Some [(js "a.md", 0%nat); (js "b.md", 1%nat); (js "c.md", 2%nat)].
Proof. reflexivity. Qed.

(** C4. [rerank] is a no-op that keeps the input order: for every query and
    every list of documents it returns one result per document, and the i-th
    result carries the file of the i-th document and the index i. *)
Theorem rerank_preserves_input_order (query : jsstring) (documents : list RerankDocument) :
  exists r, rerank query documents = Returned r /\
    length (results r) = length documents /\
    map result_file (results r) = map file documents /\
    (forall (i : nat) doc, documents !! i = Some doc ->
       exists res, results r !! i = Some res /\ result_file res = file doc /\ index res = i) /\
    (forall (i : nat) res, results r !! i = Some res -> index res = i).
Proof.
  eexists. split; [reflexivity|]. cbn [results].
  repeat split.
  - apply length_imap.
  - apply list_eq. intros i.
    rewrite !list_lookup_fmap, list_lookup_imap.
    destruct (documents !! i); reflexivity.
  - intros i doc Hdoc. rewrite list_lookup_imap, Hdoc. cbn. eauto.
  - intros i res. rewrite list_lookup_imap.
    destruct (documents !! i); cbn; [|discriminate].
    intros [= <-]. reflexivity.
Qed.

(** ** The constructor *)

Lemma constructor_throws_iff (env : Env) (config : OpenRouterConfig) :
  failed (constructor env config) <->
  or_else (or_undef (cfg_apiKey config) (env !! js "OPENROUTER_API_KEY")) (js "") = [].
Proof.
  unfold constructor, failed.
  destruct (or_else _ _) as [|c k]; cbn.
  - split; eauto.
  - split; [intros [e He]; discriminate | discriminate].
Qed.

(** C6. Missing credentials are fatal at once: with no API key in the
    configuration and none in the environment the constructor throws, and no
    instance is produced (none is returned and none is added to the objects
    of the module state). *)
Theorem constructor_without_api_key_throws (env : Env) (config : OpenRouterConfig) :
  cfg_apiKey config = None ->
  env !! js "OPENROUTER_API_KEY" = None ->
  constructor env config =
    Thrown (js "OpenRouter API key required. Set OPENROUTER_API_KEY environment variable.") /\
  (forall llm, constructor env config <> Returned llm) /\
  (forall s, DefaultLLM.env s = env ->
     exists e, new_OpenRouterLLM config s = (Thrown e, s)).
Proof.
  intros Hcfg Henv.
  assert (Hc : constructor env config =
    Thrown (js "OpenRouter API key required. Set OPENROUTER_API_KEY environment variable.")).
  { unfold constructor. rewrite Hcfg, Henv. reflexivity. }
  split; [exact Hc|]. split.
  - intros llm. rewrite Hc. discriminate.
  - intros s <-. unfold new_OpenRouterLLM. rewrite Hc. eauto.
Qed.

Lemma constructor_without_api_key_throws_witness :
  constructor env_without_key empty_config =
    Thrown (js "OpenRouter API key required. Set OPENROUTER_API_KEY environment variable.") /\
  (forall llm, constructor env_without_key empty_config <> Returned llm) /\
  (forall s, DefaultLLM.env s = env_without_key ->
     exists e, new_OpenRouterLLM empty_config s = (Thrown e, s)).
Proof.
  apply (constructor_without_api_key_throws env_without_key empty_config); reflexivity.
Defined.

(** ** Provider failures *)

Section ProviderFailure.
Variable provider : Provider.
Variable this : OpenRouterLLM.

Lemma embed_request_failure (text : jsstring) :
  failed (request provider this (js "/embeddings")
            (EmbeddingsBody (embedModel this) (InputText text))) ->
  embed provider this text = Returned None.
Proof. intros [e He]. unfold embed. rewrite He. reflexivity. Qed.

Lemma generate_request_failure (prompt : jsstring) (options : GenerateOptions) :
  failed (request provider this (js "/chat/completions")
            (ChatBody (chatModel this) prompt
                      (num_or (maxTokens options) 500%float)
                      (num_or (temperature options) 0%float))) ->
  generate provider this prompt options = Returned None.
Proof. intros [e He]. unfold generate. rewrite He. reflexivity. Qed.

Lemma embedBatch_request_failure (texts : list jsstring) :
  failed (request provider this (js "/embeddings")
            (EmbeddingsBody (embedModel this) (InputTexts texts))) ->
  embedBatch provider this texts = Returned (replicate (length texts) None).
Proof.
  intros [e He]. unfold embedBatch.
  destruct (length texts =? 0)%nat eqn:Hlen.
  - apply Nat.eqb_eq in Hlen. rewrite Hlen. destruct texts; [reflexivity|discriminate].
  - rewrite He. cbn [try_catch mbind outcome_bind mret outcome_ret]. f_equal.
    clear. induction texts as [|x l IH]; cbn; [reflexivity|]. now rewrite IH.
Qed.

(** The three calls never throw, whatever the provider does. *)
Lemma embed_never_throws (text : jsstring) :
  exists r, embed provider this text = Returned r.
Proof.
  unfold embed. destruct (request _ _ _ _) as [[data model|choices model]|e]; cbn; eauto.
Qed.

Lemma generate_never_throws (prompt : jsstring) (options : GenerateOptions) :
  exists r, generate provider this prompt options = Returned r.
Proof.
  unfold generate. destruct (request _ _ _ _) as [[data model|choices model]|e]; cbn; eauto.
Qed.

Lemma embedBatch_never_throws (texts : list jsstring) :
  exists r, embedBatch provider this texts = Returned r.
Proof.
  unfold embedBatch. destruct (_ =? _)%nat; [cbn; eauto|].
  destruct (request _ _ _ _) as [[data model|choices model]|e]; cbn; eauto.
Qed.

End ProviderFailure.

(** C3. When the provider request fails, [embed] and [generate] return [null]
    instead of throwing, and [embedBatch] returns one [null] per input text:
    a list as long as the input in which every entry is the failure marker,
    so no vector, partial or otherwise, is produced. *)
Theorem provider_failure_yields_null (provider : Provider) (this : OpenRouterLLM) :
  (forall req, failed (provider req)) ->
  (forall text, embed provider this text = Returned None) /\
  (forall prompt options, generate provider this prompt options = Returned None) /\
  (forall texts, exists batch,
     embedBatch provider this texts = Returned batch /\
     length batch = length texts /\
     Forall (fun r => r = None) batch).
Proof.
  intros Hdown. repeat split.
  - intros text. apply embed_request_failure, Hdown.
  - intros prompt options. apply generate_request_failure, Hdown.
  - intros texts. exists (replicate (length texts) None). repeat split.
    + apply embedBatch_request_failure, Hdown.
    + apply length_replicate.
    + now apply Forall_replicate.
Qed.

Lemma provider_failure_yields_null_witness :
  (forall text, embed provider_down default_client text = Returned None) /\
  (forall prompt options, generate provider_down default_client prompt options = Returned None) /\
  (forall texts, exists batch,
     embedBatch provider_down default_client texts = Returned batch /\
     length batch = length texts /\
     Forall (fun r => r = None) batch).
Proof.
  apply (provider_failure_yields_null provider_down default_client).
  intros req. unfold failed, provider_down. eauto.
Defined.

(** ** Embedding dimensions *)

Lemma getEmbeddingDimensions_never_throws (this : OpenRouterLLM) :
  exists v, getEmbeddingDimensions this = Returned v.
Proof. unfold getEmbeddingDimensions. eauto. Qed.

Lemma getEmbeddingDimensions_nonzero (this : OpenRouterLLM) :
  getEmbeddingDimensions this <> Returned (VNumber 0).
Proof.
  unfold getEmbeddingDimensions, value_or.
  destruct (get_property _ _) as [x| |]; try discriminate.
  destruct (x =? 0)%Z eqn:E; [discriminate|].
  intros [= ->]. discriminate.
Qed.

Example getEmbeddingDimensions_declared :
  getEmbeddingDimensions default_client = Returned (VNumber 3072) /\
  getEmbeddingDimensions
    (mkLLM (js "sk") (js "openai/text-embedding-3-small") DEFAULT_CHAT_MODEL OPENROUTER_API_BASE)
    = Returned (VNumber 1536).
Proof. split; vm_compute; reflexivity. Qed.

(** C5, as the spec has it, fails on the code: for the embedding model
    "acme/embed-v1", which has no declared dimensionality, asking for the
    dimensionality does not fail but answers 3072. *)
Lemma getEmbeddingDimensions_unknown_model_counterexample :
  EMBEDDING_DIMENSIONS !! embedModel custom_client = None /\
  getEmbeddingDimensions custom_client = Returned (VNumber 3072) /\
  ~ failed (getEmbeddingDimensions custom_client).
Proof.
  split; [vm_compute; reflexivity|].
  split; [vm_compute; reflexivity|].
  intros [e He]. vm_compute in He. discriminate.
Qed.

(** C5, amended. Asking for the dimensionality of a model that has no
    declared dimensionality does not fail: [getEmbeddingDimensions] falls
    back to 3072 (for a model name that is not the name of a member every
    object inherits from [Object.prototype]). *)
Theorem getEmbeddingDimensions_unknown_model_default (this : OpenRouterLLM) :
  EMBEDDING_DIMENSIONS !! embedModel this = None ->
  embedModel this ∉ Object_prototype_keys ->
  getEmbeddingDimensions this = Returned (VNumber 3072) /\
  ~ failed (getEmbeddingDimensions this).
Proof.
  intros Hundeclared Hname.
  assert (Hd : getEmbeddingDimensions this = Returned (VNumber 3072)).
  { unfold getEmbeddingDimensions, get_property. rewrite Hundeclared.
    rewrite bool_decide_eq_false_2 by exact Hname. reflexivity. }
  split; [exact Hd|]. intros [e He]. rewrite Hd in He. discriminate.
Qed.

Lemma getEmbeddingDimensions_unknown_model_default_witness :
  getEmbeddingDimensions custom_client = Returned (VNumber 3072) /\
  ~ failed (getEmbeddingDimensions custom_client).
Proof.
  apply (getEmbeddingDimensions_unknown_model_default custom_client).
  - vm_compute. reflexivity.
  - apply (bool_decide_unpack _). vm_compute. exact I.
Defined.

(** ** embed on a response without data *)

(** C8. A successful embeddings response without data items makes [embed]
    return a non-null result whose embedding is the empty array, not the
    failure outcome; so a non-null result of [embed] need not have the
    dimensionality [getEmbeddingDimensions] declares. *)
Theorem embed_without_data_is_empty_success
    (provider : Provider) (this : OpenRouterLLM) (text model : jsstring) :
  request provider this (js "/embeddings") (EmbeddingsBody (embedModel this) (InputText text))
    = Returned (EmbeddingsJson [] model) ->
  embed provider this text = Returned (Some {| embedding := []; embedding_model := model |}) /\
  exists r, embed provider this text = Returned (Some r) /\
            length (embedding r) = 0%nat /\
            getEmbeddingDimensions this <> Returned (VNumber (Z.of_nat (length (embedding r)))).
Proof.
  intros Hresp.
  assert (He : embed provider this text
               = Returned (Some {| embedding := []; embedding_model := model |})).
  { unfold embed. rewrite Hresp. reflexivity. }
  split; [exact He|].
  eexists. split; [exact He|]. split; [reflexivity|].
  apply getEmbeddingDimensions_nonzero.
Qed.

Lemma embed_without_data_is_empty_success_witness :
  embed provider_no_data default_client (js "Hello world")
    = Returned (Some {| embedding := []; embedding_model := DEFAULT_EMBED_MODEL |}) /\
  exists r, embed provider_no_data default_client (js "Hello world") = Returned (Some r) /\
            length (embedding r) = 0%nat /\
            getEmbeddingDimensions default_client
              <> Returned (VNumber (Z.of_nat (length (embedding r)))).
Proof.
  apply (embed_without_data_is_empty_success provider_no_data default_client
           (js "Hello world") DEFAULT_EMBED_MODEL).
  reflexivity.
Defined.

(** ** embedBatch *)

Example embedBatch_rearranged_response :
  embedBatch provider_rearranging default_client three_texts
  = Returned [Some (mkEmbeddingResult [0.5%float; 1%float] DEFAULT_EMBED_MODEL);
              Some (mkEmbeddingResult [0.25%float; 2%float] DEFAULT_EMBED_MODEL);
              Some (mkEmbeddingResult [0.125%float; 3%float] DEFAULT_EMBED_MODEL)].
Proof. vm_compute. reflexivity. Qed.

Example embedBatch_no_texts (provider : Provider) :
  embedBatch provider default_client [] = Returned [].
Proof. reflexivity. Qed.

(** C2. For a non-empty list of texts and a successful response, [embedBatch]
    places embeddings by the [index] field of the items, not by the order in
    which they arrived: when the response is any rearrangement [data] of the
    in-order response [ordered] (item i carries index i and answers text i),
    the result is the in-order list; position i holds the embedding of the
    item whose index is i; and it is the result the in-order response itself
    gives. *)
Theorem embedBatch_aligns_by_index
    (provider : Provider) (this : OpenRouterLLM) (texts : list jsstring)
    (ordered data : list EmbeddingItem) (model : jsstring) :
  texts <> [] ->
  length ordered = length texts ->
  (forall (i : nat) item, ordered !! i = Some item -> item_index item = Z.of_nat i) ->
  data ≡ₚ ordered ->
  request provider this (js "/embeddings") (EmbeddingsBody (embedModel this) (InputTexts texts))
    = Returned (EmbeddingsJson data model) ->
  exists batch,
    embedBatch provider this texts = Returned batch /\
    batch = map (fun item => Some (mkEmbeddingResult (item_embedding item) model)) ordered /\
    length batch = length texts /\
    (forall (i : nat) item, item ∈ data -> item_index item = Z.of_nat i ->
       batch !! i = Some (Some (mkEmbeddingResult (item_embedding item) model))) /\
    (forall provider',
       request provider' this (js "/embeddings")
               (EmbeddingsBody (embedModel this) (InputTexts texts))
         = Returned (EmbeddingsJson ordered model) ->
       embedBatch provider' this texts = Returned batch).
Proof.
  intros Hne Hlen Hord Hperm Hresp.
  assert (Hrun : forall p d, d ≡ₚ ordered ->
    request p this (js "/embeddings") (EmbeddingsBody (embedModel this) (InputTexts texts))
      = Returned (EmbeddingsJson d model) ->
    embedBatch p this texts
      = Returned (map (fun item => Some (mkEmbeddingResult (item_embedding item) model)) ordered)).
  { intros p d Hd Hp. unfold embedBatch.
    destruct texts as [|t texts]; [congruence|]. cbn [length Nat.eqb].
    rewrite Hp. cbn [response_data mbind outcome_bind try_catch mret outcome_ret].
    rewrite (JSFacts.sort_rearranged item_index ordered d Hord Hd). reflexivity. }
  eexists. split; [apply (Hrun provider data Hperm Hresp)|].
  split; [reflexivity|]. split; [now rewrite length_map|]. split.
  - intros i item Hin Hidx. rewrite Hperm in Hin.
    apply list_elem_of_lookup in Hin as [j Hj].
    pose proof (Hord j item Hj) as Hj'.
    assert (i = j) as -> by lia.
    rewrite list_lookup_fmap, Hj. reflexivity.
  - intros provider' Hresp'. apply (Hrun provider' ordered); [reflexivity|exact Hresp'].
Qed.

Lemma embedBatch_aligns_by_index_witness :
  exists batch,
    embedBatch provider_rearranging default_client three_texts = Returned batch /\
    batch = map (fun item => Some (mkEmbeddingResult (item_embedding item) DEFAULT_EMBED_MODEL))
                items_in_order /\
    length batch = length three_texts /\
    (forall (i : nat) item, item ∈ items_rearranged -> item_index item = Z.of_nat i ->
       batch !! i = Some (Some (mkEmbeddingResult (item_embedding item) DEFAULT_EMBED_MODEL))) /\
    (forall provider',
       request provider' default_client (js "/embeddings")
               (EmbeddingsBody (embedModel default_client) (InputTexts three_texts))
         = Returned (EmbeddingsJson items_in_order DEFAULT_EMBED_MODEL) ->
       embedBatch provider' default_client three_texts = Returned batch).
Proof.
  apply (embedBatch_aligns_by_index provider_rearranging default_client three_texts
           items_in_order items_rearranged DEFAULT_EMBED_MODEL).
  - discriminate.
  - reflexivity.
  - intros [|[|[|i]]] item; cbn; intros [= <-]; reflexivity.
  - unfold items_rearranged, items_in_order.
    etransitivity; [apply Permutation_cons_append|]. reflexivity.
  - reflexivity.
Defined.

(** ** expandQuery *)

Section ExpandQuery.
Context `{UnicodeTables}.

Example line_pattern_matches :
  String_match (H := ascii_only_tables) (js "HyDe:  a b ") true line_pattern
  = Some [(2%nat, js "a b "); (1%nat, js "HyDe")].
Proof. vm_compute. reflexivity. Qed.

Example line_pattern_refuses :
  String_match (H := ascii_only_tables) (js " vec: a") true line_pattern = None /\
  String_match (H := ascii_only_tables) (js "vec:") true line_pattern = None /\
  String_match (H := ascii_only_tables) (js "lex: a") true line_pattern = None /\
  String_match (H := ascii_only_tables) (js "vec a") true line_pattern = None.
Proof. vm_compute. auto. Qed.

Example expandQuery_on_generated_text :
  expandQuery (H := ascii_only_tables) provider_chatting default_client
              (js "how to configure authentication") None
  = Returned [mkQueryable (js "vec") (js "how to configure authentication");
              mkQueryable (js "vec") (js "login configuration");
              mkQueryable (js "hyde") (js "Set AUTH_SECRET to configure authentication.");
              mkQueryable (js "hyde") (js "x")].
Proof. vm_compute. reflexivity. Qed.

Example expandQuery_provider_down :
  expandQuery (H := ascii_only_tables) provider_down default_client (js "test query") None
  = Returned [mkQueryable (js "vec") (js "test query")].
Proof. vm_compute. reflexivity. Qed.

(** What the first parentheses of the line pattern capture is "vec" or "hyde"
    up to the case of its letters. *)
Lemma line_pattern_type (line : jsstring) m :
  String_match line true line_pattern = Some m ->
  exists m1, group m 1 = Some m1 /\
             (toLowerCase m1 = js "vec" \/ toLowerCase m1 = js "hyde").
Proof.
  unfold String_match. intros Hexec.
  apply JSFacts.exec_from_rmatch in Hexec as (pos & s & res & Hmatch & ->).
  unfold line_pattern in Hmatch.
  remember (Seq (Char 58) _) as tail_pattern eqn:Htail.
  cbn [rmatch m_pos] in Hmatch.
  destruct (pos =? 0)%nat; [|discriminate].
  assert (Hword : exists w, (w = js "vec" \/ w = js "hyde") /\
    rmatch true (lit w)
      (fun st' => rmatch true tail_pattern Some (capture 1 (MState pos s []) st'))
      (MState pos s []) = Some res).
  { revert Hmatch.
    destruct (rmatch true (lit (js "vec")) _ _) as [r|] eqn:E; intros Hmatch.
    - injection Hmatch as ->. eauto.
    - eauto. }
  destruct Hword as (w & Hw & Hlit).
  apply JSFacts.rmatch_lit in Hlit as (pre & rest & Hs & Hpre & Hk).
  cbn [m_pos m_rest m_caps] in Hs, Hk. unfold capture in Hk. cbn [m_pos m_rest m_caps] in Hk.
  assert (Hlen : length pre = length w) by (eapply Forall2_length; eassumption).
  replace (pos + length w - pos)%nat with (length pre) in Hk by lia.
  rewrite Hs, take_app_length in Hk.
  exists pre. split.
  - apply (JSFacts.rmatch_keeps true 1 tail_pattern) in Hk.
    + rewrite Hk. reflexivity.
    + subst tail_pattern. reflexivity.
    + intros st st' [= ->]. reflexivity.
  - destruct Hw as [-> | ->]; [left|right];
      (apply JSFacts.matches_lower_word; [|exact Hpre]);
      repeat constructor; cbn; lia.
Qed.

Lemma expand_line_variants (query line : jsstring) (queryables queryables' : list Queryable) :
  Forall (variant_of query) queryables ->
  expand_line query queryables line = Returned queryables' ->
  Forall (variant_of query) queryables'.
Proof.
  intros Hqs. unfold expand_line.
  destruct (String_match line true line_pattern) as [m|] eqn:Hm; [|now intros [= <-]].
  destruct (line_pattern_type line m Hm) as (m1 & Hm1 & Htype).
  rewrite Hm1. cbn [deref mbind outcome_bind].
  destruct (group m 2) as [m2|]; cbn [deref mbind outcome_bind]; [|discriminate].
  destruct (truthy (trim m2)) eqn:Htext; cbn [andb]; [|now intros [= <-]].
  unfold str_eqb. destruct (bool_decide (trim m2 = query)) eqn:Hquery;
    cbn [negb]; intros [= <-]; [exact Hqs|].
  apply Forall_app. split; [exact Hqs|]. constructor; [|constructor].
  split; [exact Htype|]. cbn [qtext]. split.
  - intros Hempty. rewrite Hempty in Htext. discriminate.
  - now apply bool_decide_eq_false in Hquery.
Qed.

Lemma for_of_expand_line_variants (query : jsstring) (lines : list jsstring)
    (queryables queryables' : list Queryable) :
  Forall (variant_of query) queryables ->
  for_of lines (expand_line query) queryables = Returned queryables' ->
  Forall (variant_of query) queryables'.
Proof.
  revert queryables. induction lines as [|line lines IH]; intros queryables Hqs; cbn [for_of].
  - now intros [= <-].
  - destruct (expand_line query queryables line) as [qs|e] eqn:Hline;
      cbn [mbind outcome_bind]; [|discriminate].
    apply IH. exact (expand_line_variants query line queryables qs Hqs Hline).
Qed.

(** The shape of every result of [expandQuery]: the original query, then
    generated variants. *)
Lemma expandQuery_from_shape (generated : outcome (option GenerateResult)) (query : jsstring) :
  exists variants,
    expandQuery_from generated query = Returned (mkQueryable (js "vec") query :: variants) /\
    Forall (variant_of query) variants.
Proof.
  unfold expandQuery_from.
  destruct generated as [[result|]|e]; cbn [mbind outcome_bind try_catch mret outcome_ret].
  - destruct (for_of _ _ _) as [qs|e] eqn:Hloop;
      cbn [mbind outcome_bind try_catch mret outcome_ret].
    + exists qs. split; [reflexivity|].
      eapply (for_of_expand_line_variants query); [|exact Hloop]. constructor.
    + exists []. split; [reflexivity|constructor].
  - exists []. split; [reflexivity|constructor].
  - exists []. split; [reflexivity|constructor].
Qed.

(** C1. For every query [q], [expandQuery(q)] returns a non-empty list whose
    first element is [{type: "vec", text: q}], the query verbatim: whether
    the generation call returns a text, returns the failure outcome [null],
    or throws; and so for [expandQuery] on top of [generate] with any
    provider. *)
Theorem expandQuery_original_query_first :
  (forall (generated : outcome (option GenerateResult)) (query : jsstring),
     exists rest,
       expandQuery_from generated query = Returned (mkQueryable (js "vec") query :: rest)) /\
  (forall (query : jsstring) (e : jsstring),
     expandQuery_from (Returned None) query = Returned [mkQueryable (js "vec") query] /\
     expandQuery_from (Thrown e) query = Returned [mkQueryable (js "vec") query]) /\
  (forall (provider : Provider) (this : OpenRouterLLM) (query : jsstring)
          (context : option jsstring),
     exists rest,
       expandQuery provider this query context
       = Returned (mkQueryable (js "vec") query :: rest)).
Proof.
  split; [|split].
  - intros generated query.
    destruct (expandQuery_from_shape generated query) as (variants & Heq & _). eauto.
  - intros query e. split; reflexivity.
  - intros provider this query context. unfold expandQuery.
    edestruct expandQuery_from_shape as (variants & Heq & _). eexists. exact Heq.
Qed.

(** The original query followed by generated variants is a list of "vec" and
    "hyde" entries whose later texts are non-empty and differ from the query. *)
Lemma original_then_variants (query : jsstring) (variants : list Queryable) :
  Forall (variant_of query) variants ->
  let l := mkQueryable (js "vec") query :: variants in
  Forall (fun q => qtype q = js "vec" \/ qtype q = js "hyde") l /\
  Forall (fun q => qtype q <> js "lex") l /\
  (forall (i : nat) q, l !! S i = Some q -> qtext q <> [] /\ qtext q <> query).
Proof.
  intros Hv l.
  assert (Htypes : Forall (fun q => qtype q = js "vec" \/ qtype q = js "hyde") l).
  { constructor; [now left|]. eapply Forall_impl; [exact Hv|]. now intros q [Ht _]. }
  split; [exact Htypes|]. split.
  - eapply Forall_impl; [exact Htypes|].
    intros q [Hq|Hq]; cbn beta in *; rewrite Hq; discriminate.
  - intros i q Hq. cbn in Hq.
    pose proof (proj1 (Forall_lookup _ _) Hv i q Hq) as (_ & Hne & Hdiff). auto.
Qed.

(** C7. Every element of the list [expandQuery] returns has type "vec" or
    "hyde", never "lex", and every element after index 0 has a non-empty text
    that differs from the original query: for every completion of the
    generation call, and so for [expandQuery] with any provider. *)
Theorem expandQuery_variant_types_and_texts :
  (forall (generated : outcome (option GenerateResult)) (query : jsstring),
     exists l,
       expandQuery_from generated query = Returned l /\
       Forall (fun q => qtype q = js "vec" \/ qtype q = js "hyde") l /\
       Forall (fun q => qtype q <> js "lex") l /\
       (forall (i : nat) q, l !! S i = Some q -> qtext q <> [] /\ qtext q <> query)) /\
  (forall (provider : Provider) (this : OpenRouterLLM) (query : jsstring)
          (context : option jsstring),
     exists l,
       expandQuery provider this query context = Returned l /\
       Forall (fun q => qtype q = js "vec" \/ qtype q = js "hyde") l /\
       Forall (fun q => qtype q <> js "lex") l /\
       (forall (i : nat) q, l !! S i = Some q -> qtext q <> [] /\ qtext q <> query)).
Proof.
  split.
  - intros generated query.
    destruct (expandQuery_from_shape generated query) as (variants & Heq & Hv).
    eexists. split; [exact Heq|]. exact (original_then_variants query variants Hv).
  - intros provider this query context. unfold expandQuery.
    edestruct expandQuery_from_shape as (variants & Heq & Hv).
    eexists. split; [exact Heq|]. exact (original_then_variants query variants Hv).
Qed.

End ExpandQuery.

End OpenRouterSpec.

(* ===================================================================== *)
(** * Properties of the default instance *)
(* ===================================================================== *)

Module DefaultLLMSpec.
Import JS LLM OpenRouter DefaultLLM Samples.

Lemma constructor_with_env_key (e : Env) (key : jsstring) :
  e !! js "OPENROUTER_API_KEY" = Some key -> key <> [] ->
  exists o, constructor e empty_config = Returned o.
Proof.
  intros Hkey Hne. unfold constructor. cbn [cfg_apiKey empty_config or_undef].
  rewrite Hkey. destruct key as [|c key]; [congruence|]. cbn. eauto.
Qed.

Lemma getDefaultLLM_held (s : state) (r : ref) :
  defaultLLM s = Some r -> getDefaultLLM s = (Returned r, s).
Proof.
  intros Hheld. unfold getDefaultLLM, mbind, M_bind, read. rewrite Hheld. reflexivity.
Qed.

Lemma getDefaultLLM_first (s : state) (o : OpenRouterLLM) :
  defaultLLM s = None ->
  constructor (env s) empty_config = Returned o ->
  getDefaultLLM s =
    (Returned (length (objects s)),
     mkState (env s) (objects s ++ [o]) (Some (length (objects s)))
             (log s ++ [Assign (Some (length (objects s)))])).
Proof.
  intros Hnone Hnew.
  unfold getDefaultLLM, mbind, M_bind, read, new_OpenRouterLLM, assign.
  rewrite Hnone, Hnew. reflexivity.
Qed.

Lemma getDefaultLLM_first_throws (s : state) (e : jsstring) :
  defaultLLM s = None ->
  constructor (env s) empty_config = Thrown e ->
  getDefaultLLM s = (Thrown e, s).
Proof.
  intros Hnone Hnew.
  unfold getDefaultLLM, mbind, M_bind, read, new_OpenRouterLLM.
  rewrite Hnone, Hnew. reflexivity.
Qed.

Lemma setDefaultLLM_assigns (s : state) (llm : option ref) :
  setDefaultLLM llm s
  = (Returned tt, mkState (env s) (objects s) llm (log s ++ [Assign llm])).
Proof. reflexivity. Qed.

Lemma disposeDefaultLLM_held (s : state) (r : ref) :
  defaultLLM s = Some r ->
  disposeDefaultLLM s
  = (Returned tt, mkState (env s) (objects s) None (log s ++ [Dispose r; Assign None])).
Proof.
  intros Hheld.
  unfold disposeDefaultLLM, mbind, M_bind, read, call_dispose, assign.
  rewrite Hheld. cbn. now rewrite <- app_assoc.
Qed.

Lemma disposeDefaultLLM_none (s : state) :
  defaultLLM s = None -> disposeDefaultLLM s = (Returned tt, s).
Proof.
  intros Hnone. unfold disposeDefaultLLM, mbind, M_bind, read. rewrite Hnone. reflexivity.
Qed.

(** A call of [getDefaultLLM] that returns leaves the returned instance held,
    and keeps the state well formed. *)
Lemma getDefaultLLM_holds_result (s s1 : state) (r : ref) :
  well_formed s ->
  getDefaultLLM s = (Returned r, s1) ->
  defaultLLM s1 = Some r /\ well_formed s1 /\ env s1 = env s.
Proof.
  intros Hwf Hget. destruct (defaultLLM s) as [r0|] eqn:Hheld.
  - rewrite (getDefaultLLM_held s r0 Hheld) in Hget. injection Hget as <- <-. auto.
  - destruct (constructor (env s) empty_config) as [o|e] eqn:Hnew.
    + rewrite (getDefaultLLM_first s o Hheld Hnew) in Hget. injection Hget as <- <-.
      cbn. repeat split. intros r [= <-]. cbn. rewrite length_app. cbn. lia.
    + rewrite (getDefaultLLM_first_throws s e Hheld Hnew) in Hget. discriminate.
Qed.

Example default_llm_in_a_fresh_process :
  let '(r1, s1) := getDefaultLLM fresh_process in
  let '(r2, s2) := getDefaultLLM s1 in
  let '(_, s3) := disposeDefaultLLM s2 in
  let '(r4, s4) := getDefaultLLM s3 in
  (r1, r2, defaultLLM s3, r4, log s4)
  = (Returned 0%nat, Returned 0%nat, None, Returned 1%nat,
     [Assign (Some 0%nat); Dispose 0%nat; Assign None; Assign (Some 1%nat)]).
Proof. vm_compute. reflexivity. Qed.

(** With none held and a key in the environment, [getDefaultLLM] constructs:
    the instance returned did not exist before, exists afterwards and is
    held. *)
Lemma getDefaultLLM_constructs (s : state) (key : jsstring) :
  env s !! js "OPENROUTER_API_KEY" = Some key -> key <> [] ->
  defaultLLM s = None ->
  exists r s',
    getDefaultLLM s = (Returned r, s') /\
    r = length (objects s) /\
    objects s !! r = None /\
    is_Some (objects s' !! r) /\
    defaultLLM s' = Some r.
Proof.
  intros Hkey Hne Hnone.
  destruct (constructor_with_env_key (env s) key Hkey Hne) as [o Ho].
  eexists _, _. split; [apply (getDefaultLLM_first s o Hnone Ho)|].
  cbn. repeat split.
  - apply lookup_ge_None. lia.
  - exists o. now rewrite lookup_app_r, Nat.sub_diag.
Qed.

(** C9. The default LLM is a lazily created singleton. In a well-formed
    module state with an API key in the environment, [getDefaultLLM] returns
    an instance [r], constructed by this call exactly when none was held;
    every later call returns the same [r] and leaves the state alone; after
    [setDefaultLLM(null)] or [disposeDefaultLLM()] nothing is held and the
    next call constructs an instance that did not exist before, different
    from [r]; [disposeDefaultLLM] first disposes [r] and then clears the
    variable, and does nothing when none is held. *)
Theorem default_llm_is_a_lazy_singleton (s : state) (key : jsstring) :
  well_formed s ->
  env s !! js "OPENROUTER_API_KEY" = Some key -> key <> [] ->
  exists r s1,
    getDefaultLLM s = (Returned r, s1) /\ defaultLLM s1 = Some r /\
    (defaultLLM s = None ->
       objects s !! r = None /\ is_Some (objects s1 !! r)) /\
    (forall r0, defaultLLM s = Some r0 -> r = r0 /\ s1 = s) /\
    (forall n : nat,
       getDefaultLLM (Nat.iter n (fun t => snd (getDefaultLLM t)) s1) = (Returned r, s1)) /\
    (exists s2 r' s3,
       setDefaultLLM None s1 = (Returned tt, s2) /\ defaultLLM s2 = None /\
       getDefaultLLM s2 = (Returned r', s3) /\
       r' <> r /\ objects s2 !! r' = None /\ is_Some (objects s3 !! r') /\
       defaultLLM s3 = Some r') /\
    (exists s2 r' s3,
       disposeDefaultLLM s1 = (Returned tt, s2) /\ defaultLLM s2 = None /\
       log s2 = log s1 ++ [Dispose r; Assign None] /\
       getDefaultLLM s2 = (Returned r', s3) /\
       r' <> r /\ objects s2 !! r' = None /\ is_Some (objects s3 !! r') /\
       defaultLLM s3 = Some r') /\
    (forall s0, defaultLLM s0 = None -> disposeDefaultLLM s0 = (Returned tt, s0)).
Proof.
  intros Hwf Hkey Hne.
  assert (Hget : exists r s1, getDefaultLLM s = (Returned r, s1)).
  { destruct (defaultLLM s) as [r0|] eqn:Hheld.
    - eexists _, _. apply (getDefaultLLM_held s r0 Hheld).
    - destruct (getDefaultLLM_constructs s key Hkey Hne Hheld) as (r & s1 & H1 & _). eauto. }
  destruct Hget as (r & s1 & Hget). exists r, s1.
  destruct (getDefaultLLM_holds_result s s1 r Hwf Hget) as (Hheld1 & Hwf1 & Henv1).
  pose proof (Hwf1 r Hheld1) as Hr.
  split; [exact Hget|]. split; [exact Hheld1|]. split; [|split; [|split; [|split; [|split]]]].
  - intros Hnone.
    destruct (getDefaultLLM_constructs s key Hkey Hne Hnone) as (r' & s' & H' & _ & Hnew & Hin & _).
    rewrite Hget in H'. injection H' as <- <-. auto.
  - intros r0 Hheld. rewrite (getDefaultLLM_held s r0 Hheld) in Hget.
    injection Hget as <- <-. auto.
  - intros n. assert (Hiter : Nat.iter n (fun t => snd (getDefaultLLM t)) s1 = s1).
    { induction n as [|n IH]; [reflexivity|].
      rewrite Nat.iter_succ, IH, (getDefaultLLM_held s1 r Hheld1). reflexivity. }
    rewrite Hiter. apply (getDefaultLLM_held s1 r Hheld1).
  - set (s2 := mkState (env s1) (objects s1) None (log s1 ++ [Assign None])).
    destruct (getDefaultLLM_constructs s2 key) as (r' & s3 & H3 & Hr' & Hnew & Hin & Hheld3);
      [cbn; now rewrite Henv1|exact Hne|reflexivity|].
    exists s2, r', s3. repeat split; try assumption.
    cbn in Hr'. lia.
  - set (s2 := mkState (env s1) (objects s1) None (log s1 ++ [Dispose r; Assign None])).
    destruct (getDefaultLLM_constructs s2 key) as (r' & s3 & H3 & Hr' & Hnew & Hin & Hheld3);
      [cbn; now rewrite Henv1|exact Hne|reflexivity|].
    exists s2, r', s3. repeat split; try assumption.
    + apply (disposeDefaultLLM_held s1 r Hheld1).
    + cbn in Hr'. lia.
  - apply disposeDefaultLLM_none.
Qed.

Lemma default_llm_is_a_lazy_singleton_witness :
  exists r s1,
    getDefaultLLM fresh_process = (Returned r, s1) /\ defaultLLM s1 = Some r /\
    (defaultLLM fresh_process = None ->
       objects fresh_process !! r = None /\ is_Some (objects s1 !! r)) /\
    (forall r0, defaultLLM fresh_process = Some r0 -> r = r0 /\ s1 = fresh_process) /\
    (forall n : nat,
       getDefaultLLM (Nat.iter n (fun t => snd (getDefaultLLM t)) s1) = (Returned r, s1)) /\
    (exists s2 r' s3,
       setDefaultLLM None s1 = (Returned tt, s2) /\ defaultLLM s2 = None /\
       getDefaultLLM s2 = (Returned r', s3) /\
       r' <> r /\ objects s2 !! r' = None /\ is_Some (objects s3 !! r') /\
       defaultLLM s3 = Some r') /\
    (exists s2 r' s3,
       disposeDefaultLLM s1 = (Returned tt, s2) /\ defaultLLM s2 = None /\
       log s2 = log s1 ++ [Dispose r; Assign None] /\
       getDefaultLLM s2 = (Returned r', s3) /\
       r' <> r /\ objects s2 !! r' = None /\ is_Some (objects s3 !! r') /\
       defaultLLM s3 = Some r') /\
    (forall s0, defaultLLM s0 = None -> disposeDefaultLLM s0 = (Returned tt, s0)).
Proof.
  apply (default_llm_is_a_lazy_singleton fresh_process (js "sk-or-test")).
  - intros r. discriminate.
  - vm_compute. reflexivity.
  - discriminate.
Defined.

End DefaultLLMSpec.

(* ===================================================================== *)
(** * Further facts about the runtime model *)
(* ===================================================================== *)

Module RuntimeProps.
Import JS.

(** ** split and join *)

Lemma split_from_nonempty (sep : N) (cur s : jsstring) : split_from sep cur s <> [].
Proof.
  revert cur. induction s as [|c s IH]; intros cur; cbn; [discriminate|].
  destruct (c =? sep); [discriminate|apply IH].
Qed.

Lemma join_cons (sep : N) (p : jsstring) (ps : list jsstring) :
  ps <> [] -> join sep (p :: ps) = p ++ sep :: join sep ps.
Proof. destruct ps; [congruence|reflexivity]. Qed.

Lemma join_split_from (sep : N) (cur s : jsstring) :
  join sep (split_from sep cur s) = rev cur ++ s.
Proof.
  revert cur. induction s as [|c s IH]; intros cur; cbn [split_from].
  - cbn. now rewrite app_nil_r.
  - destruct (c =? sep) eqn:E.
    + apply N.eqb_eq in E as ->.
      rewrite join_cons by apply split_from_nonempty. now rewrite IH.
    + rewrite IH. cbn. now rewrite <- app_assoc.
Qed.

Lemma elem_of_rev (x : N) (l : jsstring) : x ∈ rev l <-> x ∈ l.
Proof. rewrite !list_elem_of_In. symmetry. apply in_rev. Qed.

Lemma split_from_no_separator (sep : N) (cur s : jsstring) :
  sep ∉ cur -> Forall (fun p => sep ∉ p) (split_from sep cur s).
Proof.
  revert cur. induction s as [|c s IH]; intros cur Hcur; cbn [split_from].
  - constructor; [|constructor]. now rewrite elem_of_rev.
  - destruct (c =? sep) eqn:E.
    + constructor; [now rewrite elem_of_rev|]. apply IH. apply not_elem_of_nil.
    + apply IH. apply N.eqb_neq in E. rewrite not_elem_of_cons. split; [congruence|exact Hcur].
Qed.

Lemma split_from_length (sep : N) (cur s : jsstring) :
  length (split_from sep cur s) = S (length (filter (fun c => c = sep) s)).
Proof.
  revert cur. induction s as [|c s IH]; intros cur; cbn [split_from]; [reflexivity|].
  destruct (N.eqb_spec c sep) as [->|Hne].
  - rewrite filter_cons_True by reflexivity. cbn. now rewrite IH.
  - rewrite filter_cons_False by exact Hne. apply IH.
Qed.

(** X1. [split] loses nothing: joining the pieces with the separator gives the
    string back, no piece contains the separator, and there is one piece more
    than there are separators (so the empty string splits into one empty
    piece). *)
Theorem split_join_roundtrip (s : jsstring) (sep : N) :
  join sep (split s sep) = s /\
  Forall (fun p => sep ∉ p) (split s sep) /\
  length (split s sep) = S (length (filter (fun c => c = sep) s)).
Proof.
  unfold split. repeat split.
  - apply (join_split_from sep [] s).
  - apply split_from_no_separator, not_elem_of_nil.
  - apply split_from_length.
Qed.

(** ** trim *)

Lemma trimStart_decompose (s : jsstring) :
  exists a, s = a ++ trimStart s /\ Forall (fun c => is_space c = true) a.
Proof.
  induction s as [|c s (a & Hs & Ha)]; cbn [trimStart].
  - exists []. split; [reflexivity|constructor].
  - destruct (is_space c) eqn:E.
    + exists (c :: a). split; [cbn; now rewrite <- Hs|now constructor].
    + exists []. split; [reflexivity|constructor].
Qed.

Lemma trimStart_head (s : jsstring) (c : N) (r : jsstring) :
  trimStart s = c :: r -> is_space c = false.
Proof.
  induction s as [|x s IH]; cbn [trimStart]; [discriminate|].
  destruct (is_space x) eqn:E; [exact IH|]. now intros [= <- _].
Qed.

Lemma trimStart_fixed (s : jsstring) :
  (forall c r, s = c :: r -> is_space c = false) -> trimStart s = s.
Proof.
  destruct s as [|c s]; [reflexivity|]. intros Hc. cbn.
  now rewrite (Hc c s eq_refl).
Qed.

Lemma trimEnd_decompose (s : jsstring) :
  exists b, s = trimEnd s ++ b /\ Forall (fun c => is_space c = true) b.
Proof.
  destruct (trimStart_decompose (rev s)) as (a & Hs & Ha).
  exists (rev a). split.
  - unfold trimEnd. rewrite <- rev_app_distr, <- Hs. symmetry. apply rev_involutive.
  - apply Forall_forall. intros c Hc. apply (proj1 (elem_of_rev c a)) in Hc.
    exact (proj1 (Forall_forall _ _) Ha c Hc).
Qed.

Lemma trimEnd_last (s r : jsstring) (c : N) :
  trimEnd s = r ++ [c] -> is_space c = false.
Proof.
  unfold trimEnd. intros Hs. apply (f_equal (@rev N)) in Hs.
  rewrite rev_involutive, rev_app_distr in Hs. cbn in Hs.
  exact (trimStart_head _ _ _ Hs).
Qed.

Lemma trimEnd_fixed (s : jsstring) :
  (forall r c, s = r ++ [c] -> is_space c = false) -> trimEnd s = s.
Proof.
  intros Hc. unfold trimEnd. rewrite trimStart_fixed; [apply rev_involutive|].
  intros c r Hrev. apply (Hc (rev r) c).
  rewrite <- (rev_involutive s), Hrev. reflexivity.
Qed.

Lemma trim_head (s : jsstring) (c : N) (r : jsstring) :
  trim s = c :: r -> is_space c = false.
Proof.
  unfold trim. intros Ht.
  destruct (trimEnd_decompose (trimStart s)) as (b & Hs & _).
  rewrite Ht in Hs. exact (trimStart_head s c (r ++ b) Hs).
Qed.

Lemma trim_last (s r : jsstring) (c : N) :
  trim s = r ++ [c] -> is_space c = false.
Proof. unfold trim. apply trimEnd_last. Qed.

Lemma trim_nonempty (b : N) (body : jsstring) :
  is_space b = false -> trim (b :: body) <> [].
Proof.
  intros Hb. unfold trim. cbn [trimStart]. rewrite Hb.
  destruct (trimEnd_decompose (b :: body)) as (bs & Heq & Hbs).
  intros Hempty. rewrite Hempty in Heq. cbn in Heq. subst bs.
  inversion Hbs as [|? ? Hb' _]. congruence.
Qed.

Lemma trim_decompose (s : jsstring) :
  exists a b, s = a ++ trim s ++ b /\
              Forall (fun c => is_space c = true) a /\
              Forall (fun c => is_space c = true) b.
Proof.
  destruct (trimStart_decompose s) as (a & Hs & Ha).
  destruct (trimEnd_decompose (trimStart s)) as (b & Ht & Hb).
  exists a, b. split; [|split; assumption].
  unfold trim. now rewrite <- Ht.
Qed.

(** X2. [trim] removes white space at both ends and nothing else: the string
    is a run of white space, the trimmed string and a run of white space; the
    trimmed string neither starts nor ends with white space; trimming again
    changes nothing. *)
Theorem trim_strips_both_ends (s : jsstring) :
  (exists a b, s = a ++ trim s ++ b /\
               Forall (fun c => is_space c = true) a /\
               Forall (fun c => is_space c = true) b) /\
  (forall c r, trim s = c :: r -> is_space c = false) /\
  (forall r c, trim s = r ++ [c] -> is_space c = false) /\
  trim (trim s) = trim s.
Proof.
  split; [|split; [|split]].
  - apply trim_decompose.
  - apply trim_head.
  - apply trim_last.
  - unfold trim at 1. rewrite (trimStart_fixed (trim s)) by apply trim_head.
    apply trimEnd_fixed, trim_last.
Qed.

(** ** sort is stable *)

Section SortStable.
Context {A : Type}.
Variable key : A -> Z.

Lemma filter_key_none (k : Z) (l : list A) :
  Forall (fun z => key z <> k) l -> filter (fun z => key z = k) l = [].
Proof.
  induction 1 as [|z l Hz _ IH]; [reflexivity|].
  now rewrite filter_cons_False.
Qed.

Lemma sort_insert_filter (k : Z) (x : A) (acc : list A) :
  StronglySorted (fun a b => (key a <= key b)%Z) acc ->
  filter (fun z => key z = k) (sort_insert (fun a b => (key a - key b)%Z) x acc)
  = filter (fun z => key z = k) acc ++ filter (fun z => key z = k) [x].
Proof.
  induction 1 as [|y acc Hacc IH Hy]; cbn [sort_insert]; [reflexivity|].
  destruct (key x - key y <? 0)%Z eqn:E.
  - apply Z.ltb_lt in E. destruct (decide (key x = k)) as [Hk|Hk].
    + rewrite (filter_cons_True _ x (y :: acc)) by exact Hk.
      rewrite (filter_cons_True _ x []) by exact Hk.
      rewrite (filter_key_none k (y :: acc)); [reflexivity|].
      constructor; [lia|]. eapply Forall_impl; [exact Hy|]. cbn. intros; lia.
    + rewrite (filter_cons_False _ x (y :: acc)) by exact Hk.
      rewrite (filter_cons_False _ x []) by exact Hk. now rewrite app_nil_r.
  - rewrite !filter_cons, IH. destruct (decide (key y = k)); reflexivity.
Qed.

Lemma sort_fold_filter (k : Z) (l acc : list A) :
  StronglySorted (fun a b => (key a <= key b)%Z) acc ->
  filter (fun z => key z = k)
         (fold_left (fun acc x => sort_insert (fun a b => (key a - key b)%Z) x acc) l acc)
  = filter (fun z => key z = k) acc ++ filter (fun z => key z = k) l.
Proof.
  revert acc. induction l as [|x l IH]; intros acc Hacc; cbn [fold_left].
  - now rewrite app_nil_r.
  - rewrite IH by now apply JSFacts.sort_insert_StronglySorted.
    rewrite sort_insert_filter by exact Hacc.
    rewrite <- app_assoc. f_equal. symmetry. apply (filter_app _ [x] l).
Qed.

(** X3. [sort] with the comparator [a.index - b.index] rearranges without
    losing or inventing an element, leaves the keys in ascending order, and is
    stable: the elements with one key keep the order they arrived in. *)
Theorem sort_by_key_is_stable (l : list A) :
  sort (fun a b => (key a - key b)%Z) l ≡ₚ l /\
  StronglySorted (fun a b => (key a <= key b)%Z) (sort (fun a b => (key a - key b)%Z) l) /\
  (forall k : Z,
     filter (fun z => key z = k) (sort (fun a b => (key a - key b)%Z) l)
     = filter (fun z => key z = k) l).
Proof.
  split; [apply JSFacts.sort_Permutation|].
  split; [apply JSFacts.sort_StronglySorted|].
  intros k. unfold sort. rewrite sort_fold_filter by constructor. reflexivity.
Qed.

End SortStable.

End RuntimeProps.

(* ===================================================================== *)
(** * The line pattern of [expandQuery] *)
(* ===================================================================== *)

Module PatternProps.
Import JS LLM OpenRouter Samples.

Section Consumption.
Context `{UnicodeTables}.

(** A successful [exec_from] is a run of the matcher from an index of the
    input, on what the input holds from there. *)
Lemma exec_from_rmatch_at (ic : bool) (r : regex) (pos : nat) (s : jsstring) m :
  exec_from ic r pos s = Some m ->
  exists (n : nat) res,
    rmatch ic r Some (MState (pos + n) (drop n s) []) = Some res /\ m = m_caps res.
Proof.
  revert pos. induction s as [|c s IH]; intros pos; cbn [exec_from].
  - destruct (rmatch ic r Some _) as [res|] eqn:E; [|discriminate].
    intros [= <-]. exists 0%nat, res. now rewrite Nat.add_0_r.
  - destruct (rmatch ic r Some _) as [res|] eqn:E.
    + intros [= <-]. exists 0%nat, res. now rewrite Nat.add_0_r.
    + intros Hm. apply IH in Hm as (n & res & Hres & ->).
      exists (S n), res. now rewrite Nat.add_succ_r.
Qed.

(** What a repeated class consumes: some code units of the class, whereupon
    the continuation succeeds. *)
Lemma class_repeat_consumes (ic : bool) (p : N -> bool) (k : cont) (fuel : nat)
    (st res : mstate) :
  repeat_matcher (rmatch ic (Class p)) k fuel st = Some res ->
  exists n : nat,
    Forall (fun c => p c = true) (take n (m_rest st)) /\
    (n <= length (m_rest st))%nat /\
    k (MState (m_pos st + n) (drop n (m_rest st)) (m_caps st)) = Some res.
Proof.
  assert (Hzero : k st = Some res ->
    exists n : nat,
      Forall (fun c => p c = true) (take n (m_rest st)) /\
      (n <= length (m_rest st))%nat /\
      k (MState (m_pos st + n) (drop n (m_rest st)) (m_caps st)) = Some res).
  { intros Hk. exists 0%nat. destruct st as [pos rest caps]. cbn.
    rewrite Nat.add_0_r. repeat split; [constructor|lia|exact Hk]. }
  revert st Hzero. induction fuel as [|fuel IH]; intros st Hzero; cbn [repeat_matcher rmatch];
    [exact Hzero|].
  destruct st as [pos rest caps]. cbn [m_rest m_pos m_caps] in *.
  destruct rest as [|ch rest]; [exact Hzero|].
  destruct (p ch) eqn:Hp; [|exact Hzero].
  unfold advance. cbn [m_rest m_pos m_caps tail length].
  destruct (Nat.ltb _ _); [|exact Hzero].
  destruct (repeat_matcher _ k fuel _) as [r0|] eqn:Hrep; [|exact Hzero].
  intros [= ->]. apply IH in Hrep as (n & Hn & Hlen & Hk).
  - exists (S n). cbn [m_rest m_pos m_caps] in *. cbn [take drop length].
    rewrite Nat.add_succ_r. repeat split; [now constructor|lia|exact Hk].
  - intros Hk. exists 0%nat. cbn. rewrite Nat.add_0_r.
    repeat split; [constructor|lia|exact Hk].
Qed.

Lemma class_plus_consumes (ic : bool) (p : N -> bool) (k : cont) (st res : mstate) :
  rmatch ic (Plus (Class p)) k st = Some res ->
  exists n : nat,
    (1 <= n)%nat /\
    Forall (fun c => p c = true) (take n (m_rest st)) /\
    (n <= length (m_rest st))%nat /\
    k (MState (m_pos st + n) (drop n (m_rest st)) (m_caps st)) = Some res.
Proof.
  cbn [rmatch]. destruct st as [pos rest caps]. cbn [m_rest m_pos m_caps].
  destruct rest as [|ch rest]; [discriminate|].
  destruct (p ch) eqn:Hp; [|discriminate].
  unfold advance. cbn [m_rest m_pos m_caps tail].
  intros Hrep. apply (class_repeat_consumes ic) in Hrep as (n & Hn & Hlen & Hk).
  cbn [m_rest m_pos m_caps] in *.
  exists (S n). cbn [take drop length]. rewrite Nat.add_succ_r.
  repeat split; [lia|now constructor|lia|exact Hk].
Qed.

(** The colon of the pattern matches a colon only, also under [i]. *)
Lemma char_matches_colon (ch : N) : char_matches true 58 ch = true -> ch = 58.
Proof.
  unfold char_matches. intros Hm. apply N.eqb_eq in Hm.
  rewrite (JSFacts.canonicalize_ascii 58) in Hm by lia.
  assert (Hch : ch < 128).
  { destruct (N.lt_ge_cases ch 128) as [?|Hge]; [assumption|].
    apply JSFacts.canonicalize_non_ascii in Hge. cbn in Hm. lia. }
  rewrite (JSFacts.canonicalize_ascii ch Hch) in Hm.
  revert Hm. unfold ascii_upper.
  repeat match goal with
         | |- context [?a <=? ?b] => destruct (N.leb_spec a b)
         end; cbn [andb]; lia.
Qed.

Lemma rmatch_char_inv (ic : bool) (c : N) (k : cont) (st res : mstate) :
  rmatch ic (Char c) k st = Some res ->
  exists ch rest,
    m_rest st = ch :: rest /\ char_matches ic c ch = true /\
    k (MState (S (m_pos st)) rest (m_caps st)) = Some res.
Proof.
  cbn [rmatch]. unfold advance. destruct (m_rest st) as [|ch rest]; [discriminate|].
  destruct (char_matches ic c ch) eqn:E; [|discriminate]. cbn [tail]. eauto.
Qed.

Lemma matches_case_variant (pre w : jsstring) :
  Forall (fun c => 0x61 <= c <= 0x7A) w ->
  Forall2 (fun ch c => char_matches true c ch = true) pre w ->
  ascii_case_variant pre w.
Proof.
  intros Hw Hpre. unfold ascii_case_variant.
  induction Hpre as [|ch c pre w Hc Hpre IH]; [split; reflexivity|].
  inversion Hw as [|? ? Hc' Hw']; subst.
  destruct (JSFacts.matches_lower_letter c ch Hc' Hc) as [Ha Hl].
  destruct (IH Hw') as [IHa IHl]. cbn. rewrite Ha, Hl, IHl. auto.
Qed.

Lemma case_variant_toLowerCase (pre w : jsstring) :
  ascii_case_variant pre w -> toLowerCase pre = w.
Proof. intros [Ha Hl]. unfold toLowerCase. now rewrite Ha. Qed.

(** What a match of the line pattern looks like. *)
Lemma line_pattern_shape (line : jsstring) m :
  String_match line true line_pattern = Some m ->
  exists pre ws body,
    line = pre ++ 58 :: ws ++ body /\
    m = [(2%nat, body); (1%nat, pre)] /\
    (ascii_case_variant pre (js "vec") \/ ascii_case_variant pre (js "hyde")) /\
    Forall (fun c => is_space c = true) ws /\
    body <> [] /\
    Forall (fun c => is_dot c = true) body.
Proof.
  unfold String_match. intros Hexec.
  apply exec_from_rmatch_at in Hexec as (n & res & Hmatch & ->).
  unfold line_pattern in Hmatch.
  remember (Seq (Char 58) _) as tail_pattern eqn:Htail.
  cbn [rmatch m_pos] in Hmatch.
  destruct n as [|n]; [|discriminate]. cbn [Nat.add Nat.eqb drop] in Hmatch.
  assert (Hword : exists w, (w = js "vec" \/ w = js "hyde") /\
    rmatch true (lit w)
      (fun st' => rmatch true tail_pattern Some (capture 1 (MState 0 line []) st'))
      (MState 0 line []) = Some res).
  { revert Hmatch.
    destruct (rmatch true (lit (js "vec")) _ _) as [r|] eqn:E; intros Hmatch.
    - injection Hmatch as ->. eauto.
    - eauto. }
  destruct Hword as (w & Hw & Hlit). clear Hmatch.
  apply JSFacts.rmatch_lit in Hlit as (pre & rest & Hs & Hpre & Hk).
  cbn [m_pos m_rest m_caps] in Hs, Hk. unfold capture in Hk. cbn [m_pos m_rest m_caps] in Hk.
  assert (Hlen : length pre = length w) by (eapply Forall2_length; eassumption).
  replace (0 + length w - 0)%nat with (length pre) in Hk by lia.
  rewrite Hs, take_app_length in Hk. subst line tail_pattern.
  change (rmatch true (Seq ?a ?b) ?k) with (rmatch true a (rmatch true b k)) in Hk.
  apply rmatch_char_inv in Hk as (ch & rest1 & Hrest & Hcolon & Hk).
  cbn [m_pos m_rest m_caps] in Hrest, Hk. subst rest.
  apply char_matches_colon in Hcolon as ->.
  change (rmatch true (Seq ?a ?b) ?k) with (rmatch true a (rmatch true b k)) in Hk.
  change (rmatch true (Star ?a) ?k ?st)
    with (repeat_matcher (rmatch true a) k (length (m_rest st)) st) in Hk.
  apply class_repeat_consumes in Hk as (n1 & Hws & Hn1 & Hk).
  cbn [m_pos m_rest m_caps] in Hws, Hn1, Hk.
  change (rmatch true (Seq ?a ?b) ?k) with (rmatch true a (rmatch true b k)) in Hk.
  change (rmatch true (Group ?g ?a) ?k ?st)
    with (rmatch true a (fun st' => k (capture g st st')) st) in Hk.
  apply class_plus_consumes in Hk as (n2 & Hpos & Hbody & Hn2 & Hk).
  cbn [m_pos m_rest m_caps rmatch capture] in Hbody, Hn2, Hk.
  destruct (drop n2 (drop n1 rest1)) as [|x xs] eqn:Hend; [|discriminate].
  injection Hk as <-. cbn [m_caps].
  assert (Hall : take n2 (drop n1 rest1) = drop n1 rest1).
  { rewrite <- (take_drop n2 (drop n1 rest1)) at 2. now rewrite Hend, app_nil_r. }
  exists pre, (take n1 rest1), (drop n1 rest1). repeat split.
  - now rewrite take_drop.
  - unfold capture. cbn [m_pos m_rest m_caps].
    replace (S (length w + n1 + n2) - S (length w + n1))%nat with n2 by lia.
    now rewrite Hall.
  - destruct Hw as [-> | ->]; [left|right];
      (apply matches_case_variant; [|exact Hpre]); repeat constructor; cbn; lia.
  - exact Hws.
  - intros Hempty. rewrite Hempty in Hn2. cbn in Hn2. lia.
  - now rewrite <- Hall.
Qed.

(** X4. What a match of the line pattern looks like: the line is "vec" or
    "hyde" in any letter case, a colon, white space and a non-empty rest
    without line terminators, and nothing before or after; the first capture
    is the word, which lower-cased is "vec" or "hyde", and the second is the
    rest. *)
Theorem line_pattern_match_shape (line : jsstring) m :
  String_match line true line_pattern = Some m ->
  exists pre ws body,
    line = pre ++ 58 :: ws ++ body /\
    group m 1 = Some pre /\
    group m 2 = Some body /\
    (toLowerCase pre = js "vec" \/ toLowerCase pre = js "hyde") /\
    Forall (fun c => is_ascii c = true) pre /\
    Forall (fun c => is_space c = true) ws /\
    body <> [] /\
    Forall (fun c => is_dot c = true) body.
Proof.
  intros Hm.
  destruct (line_pattern_shape line m Hm)
    as (pre & ws & body & Hline & -> & Hpre & Hws & Hne & Hbody).
  exists pre, ws, body.
  split; [exact Hline|]. split; [reflexivity|]. split; [reflexivity|].
  split; [|split; [|auto]].
  - destruct Hpre as [Hp|Hp]; [left|right]; exact (case_variant_toLowerCase _ _ Hp).
  - apply Forall_forall. intros c Hc.
    assert (Ha : forallb is_ascii pre = true) by (destruct Hpre as [Hp|Hp]; apply Hp).
    rewrite forallb_forall in Ha. apply Ha. now apply list_elem_of_In.
Qed.

End Consumption.

Lemma line_pattern_match_shape_witness :
  exists pre ws body,
    js "HyDe:  a b " = pre ++ 58 :: ws ++ body /\
    group [(2%nat, js "a b "); (1%nat, js "HyDe")] 1 = Some pre /\
    group [(2%nat, js "a b "); (1%nat, js "HyDe")] 2 = Some body /\
    (toLowerCase (H := ascii_only_tables) pre = js "vec" \/
     toLowerCase (H := ascii_only_tables) pre = js "hyde") /\
    Forall (fun c => is_ascii c = true) pre /\
    Forall (fun c => is_space c = true) ws /\
    body <> [] /\
    Forall (fun c => is_dot c = true) body.
Proof.
  apply (line_pattern_match_shape (H := ascii_only_tables) (js "HyDe:  a b ")).
  vm_compute. reflexivity.
Defined.

Section Acceptance.
Context `{UnicodeTables}.

Lemma exec_from_first (ic : bool) (r : regex) (pos : nat) (s : jsstring) (st : mstate) :
  rmatch ic r Some (MState pos s []) = Some st ->
  exec_from ic r pos s = Some (m_caps st).
Proof. intros Hm. destruct s; cbn [exec_from]; now rewrite Hm. Qed.

Lemma rmatch_lit_forward (ic : bool) (w pre rest : jsstring) (k : cont) (pos : nat) caps :
  Forall2 (fun ch c => char_matches ic c ch = true) pre w ->
  rmatch ic (lit w) k (MState pos (pre ++ rest) caps)
  = k (MState (pos + length w) rest caps).
Proof.
  intros Hpre. revert pos. induction Hpre as [|ch c pre w Hc Hpre IH]; intros pos.
  - cbn. now rewrite Nat.add_0_r.
  - cbn [lit rmatch m_rest app]. rewrite Hc. unfold advance. cbn [m_pos m_rest m_caps tail].
    rewrite IH. cbn [length]. now rewrite Nat.add_succ_r.
Qed.

(** A repeated class, greedy: when the input starts with code units of the
    class followed by none, and the continuation succeeds behind them, that
    is the match. *)
Lemma class_repeat_greedy (ic : bool) (p : N -> bool) (k : cont) (xs rest : jsstring)
    (pos fuel : nat) caps (res : mstate) :
  Forall (fun c => p c = true) xs ->
  (forall c r, rest = c :: r -> p c = false) ->
  (length xs <= fuel)%nat ->
  k (MState (pos + length xs) rest caps) = Some res ->
  repeat_matcher (rmatch ic (Class p)) k fuel (MState pos (xs ++ rest) caps) = Some res.
Proof.
  intros Hxs Hrest. revert pos fuel.
  induction Hxs as [|x xs Hx Hxs IH]; intros pos fuel Hfuel Hk.
  - cbn [length app] in *. rewrite Nat.add_0_r in Hk.
    destruct fuel as [|fuel]; cbn [repeat_matcher rmatch m_rest]; [exact Hk|].
    destruct rest as [|c r]; [exact Hk|]. now rewrite (Hrest c r eq_refl).
  - destruct fuel as [|fuel]; [cbn in Hfuel; lia|].
    cbn [repeat_matcher rmatch m_rest app]. rewrite Hx.
    unfold advance. cbn [m_pos m_rest m_caps tail length].
    rewrite (proj2 (Nat.ltb_lt _ _) (Nat.lt_succ_diag_r _)).
    assert (Hrec : repeat_matcher (rmatch ic (Class p)) k fuel
                     (MState (S pos) (xs ++ rest) caps) = Some res).
    { apply IH; [cbn in Hfuel; lia|].
      cbn [length] in Hk. now rewrite Nat.add_succ_r in Hk. }
    cbn [rmatch] in Hrec. unfold advance in Hrec. now rewrite Hrec.
Qed.

Lemma class_plus_greedy (ic : bool) (p : N -> bool) (k : cont) (body : jsstring)
    (pos : nat) caps (res : mstate) :
  body <> [] ->
  Forall (fun c => p c = true) body ->
  k (MState (pos + length body) [] caps) = Some res ->
  rmatch ic (Plus (Class p)) k (MState pos body caps) = Some res.
Proof.
  intros Hne Hbody Hk. destruct body as [|b body]; [congruence|].
  inversion Hbody as [|? ? Hb Hbody']; subst.
  cbn [rmatch m_rest]. rewrite Hb. unfold advance. cbn [m_pos m_rest m_caps tail].
  rewrite <- (app_nil_r body) at 2.
  apply (class_repeat_greedy ic); [exact Hbody'|discriminate|lia|].
  cbn [length] in Hk. now rewrite Nat.add_succ_r in Hk.
Qed.

Lemma ascii_upper_lower (ch : N) : ascii_upper (ascii_lower ch) = ascii_upper ch.
Proof.
  unfold ascii_lower.
  destruct (N.leb_spec 0x41 ch), (N.leb_spec ch 0x5A); cbn [andb]; try reflexivity.
  unfold ascii_upper.
  repeat match goal with
         | |- context [?a <=? ?b] => destruct (N.leb_spec a b)
         end; cbn [andb]; lia.
Qed.

Lemma ascii_lower_lt (ch : N) : ch < 128 -> ascii_lower ch < 128.
Proof.
  unfold ascii_lower.
  repeat match goal with
         | |- context [?a <=? ?b] => destruct (N.leb_spec a b)
         end; cbn [andb]; lia.
Qed.

Lemma case_variant_matches (pre w : jsstring) :
  ascii_case_variant pre w ->
  Forall2 (fun ch c => char_matches true c ch = true) pre w.
Proof.
  intros [Ha <-]. induction pre as [|ch pre IH]; cbn [map]; constructor.
  - cbn [forallb] in Ha. apply andb_prop in Ha as [Hch _]. apply N.ltb_lt in Hch.
    unfold char_matches. apply N.eqb_eq.
    rewrite (JSFacts.canonicalize_ascii ch Hch).
    rewrite (JSFacts.canonicalize_ascii (ascii_lower ch) (ascii_lower_lt ch Hch)).
    symmetry. apply ascii_upper_lower.
  - apply IH. cbn [forallb] in Ha. now apply andb_prop in Ha as [_ Ha].
Qed.

(** The alternation of the pattern on a line that begins with a variant of
    one of its words. *)
Lemma word_alternation_forward (pre rest : jsstring) (k : cont) (pos : nat) caps res :
  ascii_case_variant pre (js "vec") \/ ascii_case_variant pre (js "hyde") ->
  k (MState (pos + length pre) rest caps) = Some res ->
  rmatch true (Alt (lit (js "vec")) (lit (js "hyde"))) k (MState pos (pre ++ rest) caps)
  = Some res.
Proof.
  intros Hpre Hk. cbn [rmatch]. destruct Hpre as [Hv|Hh].
  - pose proof (case_variant_matches _ _ Hv) as Hm.
    rewrite (rmatch_lit_forward true _ _ _ _ _ _ Hm).
    rewrite <- (Forall2_length _ _ _ Hm), Hk. reflexivity.
  - pose proof (case_variant_matches _ _ Hh) as Hm.
    assert (Hfirst : rmatch true (lit (js "vec")) k (MState pos (pre ++ rest) caps) = None).
    { destruct Hh as [Ha Hl]. destruct pre as [|ch pre]; [discriminate|].
      injection Hl as Hch _. cbn [forallb] in Ha. apply andb_prop in Ha as [Hlt _].
      apply N.ltb_lt in Hlt.
      change (js "vec") with [118; 101; 99]. cbn [lit rmatch m_rest app].
      unfold char_matches.
      rewrite (JSFacts.canonicalize_ascii ch Hlt), (JSFacts.canonicalize_ascii 118) by lia.
      rewrite <- ascii_upper_lower, Hch. reflexivity. }
    rewrite Hfirst, (rmatch_lit_forward true _ _ _ _ _ _ Hm).
    rewrite <- (Forall2_length _ _ _ Hm), Hk. reflexivity.
Qed.

(** The pattern accepts every well-formed line: "vec" or "hyde" in any
    letter case, a colon, any white space, and a rest without line
    terminators that begins with a code unit other than white space; the
    captures are the word and the whole rest. *)
Lemma line_pattern_accepts (pre ws : jsstring) (b : N) (body : jsstring) :
  ascii_case_variant pre (js "vec") \/ ascii_case_variant pre (js "hyde") ->
  Forall (fun c => is_space c = true) ws ->
  is_space b = false ->
  Forall (fun c => is_dot c = true) (b :: body) ->
  String_match (pre ++ 58 :: ws ++ b :: body) true line_pattern
  = Some [(2%nat, b :: body); (1%nat, pre)].
Proof.
  intros Hpre Hws Hb Hbody. unfold String_match.
  set (final := MState (S (length pre) + length ws + length (b :: body)) []
                       [(2%nat, b :: body); (1%nat, pre)]).
  apply (exec_from_first true line_pattern 0 _ final).
  unfold line_pattern.
  change (rmatch true (Seq Bol ?r) ?k ?st)
    with (if (m_pos st =? 0)%nat then rmatch true r k st else None).
  cbn [m_pos Nat.eqb].
  change (rmatch true (Seq (Group 1 ?a) ?t) ?k ?st)
    with (rmatch true a (fun st' => rmatch true t k (capture 1 st st')) st).
  apply word_alternation_forward; [exact Hpre|].
  unfold capture. cbn [m_pos m_rest m_caps Nat.add].
  rewrite Nat.sub_0_r, take_app_length.
  change (rmatch true (Seq ?a ?t) ?k) with (rmatch true a (rmatch true t k)).
  set (after_colon := rmatch true (Seq (Star _) _) Some).
  cbn [rmatch m_rest].
  assert (Hcolon : char_matches true 58 58 = true) by (unfold char_matches; apply N.eqb_refl).
  rewrite Hcolon. unfold advance. cbn [m_pos m_rest m_caps tail]. subst after_colon.
  change (rmatch true (Seq ?a ?t) ?k) with (rmatch true a (rmatch true t k)).
  change (rmatch true (Star ?a) ?k ?st)
    with (repeat_matcher (rmatch true a) k (length (m_rest st)) st).
  apply (class_repeat_greedy true).
  - exact Hws.
  - intros c r [= <- _]. exact Hb.
  - cbn [m_rest]. rewrite length_app. lia.
  - change (rmatch true (Seq ?a ?t) ?k) with (rmatch true a (rmatch true t k)).
    change (rmatch true (Group ?g ?a) ?k ?st)
      with (rmatch true a (fun st' => k (capture g st st')) st).
    apply class_plus_greedy; [discriminate|exact Hbody|].
    cbn [rmatch m_rest]. unfold capture. cbn [m_pos m_rest m_caps].
    subst final. f_equal. f_equal. f_equal. f_equal.
    replace (S (length pre) + length ws + length (b :: body)
             - (S (length pre) + length ws))%nat
      with (length (b :: body)) by lia.
    apply firstn_all.
Qed.

End Acceptance.

Section Parsing.
Context `{UnicodeTables}.

(** The loop body never throws: it leaves the list alone or appends one
    variant taken from the line. *)
Lemma expand_line_returns (query : jsstring) (queryables : list Queryable) (line : jsstring) :
  expand_line query queryables line = Returned queryables \/
  exists pre ws body,
    line = pre ++ 58 :: ws ++ body /\
    (ascii_case_variant pre (js "vec") \/ ascii_case_variant pre (js "hyde")) /\
    Forall (fun c => is_space c = true) ws /\
    Forall (fun c => is_dot c = true) body /\
    expand_line query queryables line
    = Returned (queryables ++ [mkQueryable (toLowerCase pre) (trim body)]).
Proof.
  unfold expand_line.
  destruct (String_match line true line_pattern) as [m|] eqn:Hm; [|now left].
  destruct (line_pattern_shape line m Hm)
    as (pre & ws & body & Hline & -> & Hpre & Hws & Hne & Hbody).
  cbn [group Nat.eqb deref mbind outcome_bind].
  destruct (truthy (trim body) && negb (str_eqb (trim body) query)); [|now left].
  right. exists pre, ws, body. auto.
Qed.

Lemma for_of_expand_line_returns (query : jsstring) (lines : list jsstring)
    (queryables : list Queryable) :
  exists queryables',
    for_of lines (expand_line query) queryables = Returned queryables' /\
    (length queryables' <= length queryables + length lines)%nat.
Proof.
  revert queryables. induction lines as [|line lines IH]; intros queryables; cbn [for_of].
  - exists queryables. split; [reflexivity|lia].
  - destruct (expand_line_returns query queryables line)
      as [Hsame | (pre & ws & body & _ & _ & _ & _ & Happ)].
    + rewrite Hsame. cbn [mbind outcome_bind].
      destruct (IH queryables) as (qs & Hqs & Hlen). exists qs. split; [exact Hqs|].
      cbn [length]. lia.
    + rewrite Happ. cbn [mbind outcome_bind].
      destruct (IH (queryables ++ [mkQueryable (toLowerCase pre) (trim body)]))
        as (qs & Hqs & Hlen).
      exists qs. split; [exact Hqs|]. rewrite length_app in Hlen. cbn [length] in *. lia.
Qed.

(** X6. Parsing the generated text never throws: after a generation that
    returned a text, [expandQuery] returns the original query followed by what
    the loop over the lines collected, never the fallback of its [catch]; and
    the loop collects at most one variant per line of the trimmed text. *)
Theorem expandQuery_parsing_never_throws (result : GenerateResult) (query : jsstring) :
  exists variants,
    for_of (split (trim (text result)) 10) (expand_line query) [] = Returned variants /\
    expandQuery_from (Returned (Some result)) query
    = Returned (mkQueryable (js "vec") query :: variants) /\
    (length variants <= length (split (trim (text result)) 10))%nat.
Proof.
  destruct (for_of_expand_line_returns query (split (trim (text result)) 10) [])
    as (variants & Hloop & Hlen).
  exists variants. split; [exact Hloop|]. split; [|exact Hlen].
  unfold expandQuery_from. cbn [mbind outcome_bind try_catch].
  rewrite Hloop. reflexivity.
Qed.

Lemma trim_keeps_Forall (P : N -> Prop) (s : jsstring) : Forall P s -> Forall P (trim s).
Proof.
  intros Hs. destruct (RuntimeProps.trim_decompose s) as (a & b & Heq & _).
  rewrite Heq in Hs. apply Forall_app in Hs as [_ Hs]. now apply Forall_app in Hs as [Hs _].
Qed.

(** A variant read off one of the given lines: the line is a word, a colon,
    white space and a rest; the type is the word in lower case and the text
    the trimmed rest, which holds no line terminator. *)
Let read_off (lines : list jsstring) (q : Queryable) : Prop :=
  exists line pre ws body,
    line ∈ lines /\
    line = pre ++ 58 :: ws ++ body /\
    ascii_case_variant pre (qtype q) /\
    Forall (fun c => is_space c = true) ws /\
    qtext q = trim body /\
    Forall (fun c => is_dot c = true) (qtext q).

Lemma for_of_expand_line_read_off (query : jsstring) (all lines : list jsstring)
    (queryables queryables' : list Queryable) :
  (forall line, line ∈ lines -> line ∈ all) ->
  Forall (read_off all) queryables ->
  for_of lines (expand_line query) queryables = Returned queryables' ->
  Forall (read_off all) queryables'.
Proof.
  revert queryables. induction lines as [|line lines IH]; intros queryables Hsub Hqs;
    cbn [for_of].
  - now intros [= <-].
  - assert (Hrest : forall l, l ∈ lines -> l ∈ all).
    { intros l Hl. apply Hsub. now right. }
    destruct (expand_line_returns query queryables line)
      as [Hsame | (pre & ws & body & Hline & Hpre & Hws & Hbody & Happ)].
    + rewrite Hsame. cbn [mbind outcome_bind]. now apply IH.
    + rewrite Happ. cbn [mbind outcome_bind]. apply IH; [exact Hrest|].
      apply Forall_app. split; [exact Hqs|]. constructor; [|constructor].
      exists line, pre, ws, body. cbn [qtype qtext].
      split; [apply Hsub; now left|]. split; [exact Hline|]. split.
      * destruct Hpre as [Hp|Hp]; now rewrite (case_variant_toLowerCase _ _ Hp).
      * split; [exact Hws|]. split; [reflexivity|]. now apply trim_keeps_Forall.
Qed.

(** X7. Every variant [expandQuery] returns after the original query is read
    off a line of the trimmed generated text: the line is "vec" or "hyde" in
    any letter case, a colon, white space and a rest; the variant's type is
    the word in lower case and its text the trimmed rest, without any line
    terminator. Nothing else of the text becomes a variant. *)
Theorem expandQuery_variants_come_from_lines (result : GenerateResult) (query : jsstring) :
  exists variants,
    expandQuery_from (Returned (Some result)) query
    = Returned (mkQueryable (js "vec") query :: variants) /\
    Forall (fun q =>
              exists line pre ws body,
                line ∈ split (trim (text result)) 10 /\
                line = pre ++ 58 :: ws ++ body /\
                ascii_case_variant pre (qtype q) /\
                Forall (fun c => is_space c = true) ws /\
                qtext q = trim body /\
                Forall (fun c => is_dot c = true) (qtext q))
           variants.
Proof.
  destruct (for_of_expand_line_returns query (split (trim (text result)) 10) [])
    as (variants & Hloop & _).
  exists variants. split.
  - unfold expandQuery_from. cbn [mbind outcome_bind try_catch]. now rewrite Hloop.
  - apply (for_of_expand_line_read_off query _ _ [] variants (fun _ Hl => Hl));
      [constructor|exact Hloop].
Qed.

(** X5. The loop body accepts every well-formed line: for "vec" or "hyde" in
    any letter case, a colon, any white space and a rest without line
    terminators that does not begin with white space, it appends the variant
    with the word in lower case and the trimmed rest; unless the trimmed rest
    is the query itself, which it skips. *)
Theorem expand_line_accepts (query : jsstring) (queryables : list Queryable)
    (w pre ws : jsstring) (b : N) (body : jsstring) :
  w = js "vec" \/ w = js "hyde" ->
  ascii_case_variant pre w ->
  Forall (fun c => is_space c = true) ws ->
  is_space b = false ->
  Forall (fun c => is_dot c = true) (b :: body) ->
  expand_line query queryables (pre ++ 58 :: ws ++ b :: body)
  = Returned (if str_eqb (trim (b :: body)) query then queryables
              else queryables ++ [mkQueryable w (trim (b :: body))]).
Proof.
  intros Hw Hpre Hws Hb Hbody. unfold expand_line.
  rewrite (line_pattern_accepts pre ws b body); try assumption.
  - cbn [group Nat.eqb deref mbind outcome_bind].
    rewrite (case_variant_toLowerCase pre w Hpre).
    destruct (trim (b :: body)) as [|t ts] eqn:Htrim.
    + now apply RuntimeProps.trim_nonempty in Htrim.
    + cbn [truthy andb]. destruct (str_eqb (t :: ts) query); reflexivity.
  - destruct Hw as [-> | ->]; [left|right]; exact Hpre.
Qed.

(** X8. A line that ends with a line terminator, such as the carriage return
    of a Windows line ending left behind by [split], never matches, and the
    loop body skips it. *)
Theorem line_ending_in_terminator_is_skipped (query : jsstring)
    (queryables : list Queryable) (l : jsstring) (c : N) :
  is_line_terminator c = true ->
  String_match (l ++ [c]) true line_pattern = None /\
  expand_line query queryables (l ++ [c]) = Returned queryables.
Proof.
  intros Hc.
  assert (Hnone : String_match (l ++ [c]) true line_pattern = None).
  { destruct (String_match (l ++ [c]) true line_pattern) as [m|] eqn:Hm; [|reflexivity].
    exfalso.
    destruct (line_pattern_shape _ m Hm)
      as (pre & ws & body & Hline & _ & _ & _ & Hne & Hbody).
    destruct (exists_last Hne) as (body' & x & ->).
    replace (pre ++ 58 :: ws ++ body' ++ [x]) with ((pre ++ 58 :: ws ++ body') ++ [x])
      in Hline by (rewrite <- !app_assoc; cbn; now rewrite <- app_assoc).
    apply app_inj_tail in Hline as [_ ->].
    apply Forall_app in Hbody as [_ Hx]. inversion Hx as [|? ? Hdot _].
    unfold is_dot in Hdot. rewrite Hc in Hdot. discriminate. }
  split; [exact Hnone|]. unfold expand_line. now rewrite Hnone.
Qed.

(** [expandQuery] is its parser applied to what [generate] makes of the
    answer to [expand_request]. *)
#[warnings="-inexact-float"]
Lemma expandQuery_request (provider : Provider) (this : OpenRouterLLM)
    (query : jsstring) (context : option jsstring) :
  generate provider this (expand_prompt query context)
           {| maxTokens := Some 300%float; temperature := Some 0.7%float |}
  = try_catch
      (response ← provider (expand_request this query context);
       '(choices, model) ← response_choices response;
       mret (Some {| text := or_else (content <$> (message <$> head choices)) (js "");
                     generate_model := model;
                     done := true |}))
      (fun _ => mret None).
Proof. reflexivity. Qed.

(** X9. [expandQuery] consults the provider once: its result depends on the
    provider only through the answer to one request, a POST to
    [baseUrl + "/chat/completions"] authorised as [Bearer apiKey], for the
    chat model, with the prompt, 300 tokens at most and temperature 0.7. *)
Theorem expandQuery_sends_one_request (provider provider' : Provider) (this : OpenRouterLLM)
    (query : jsstring) (context : option jsstring) :
  provider (expand_request this query context) = provider' (expand_request this query context) ->
  expandQuery provider this query context = expandQuery provider' this query context.
Proof.
  intros Hsame. unfold expandQuery.
  rewrite !expandQuery_request, Hsame. reflexivity.
Qed.

(** X10. The fallback: when the request fails, or the answer has not the
    shape of a chat completion, or it has no choices, or the first choice is
    the empty text, [expandQuery] returns the original query alone. *)
Theorem expandQuery_falls_back_to_query (provider : Provider) (this : OpenRouterLLM)
    (query : jsstring) (context : option jsstring) :
  failed (provider (expand_request this query context)) \/
  (exists data model,
     provider (expand_request this query context) = Returned (EmbeddingsJson data model)) \/
  (exists model,
     provider (expand_request this query context) = Returned (ChatJson [] model)) \/
  (exists rest model,
     provider (expand_request this query context)
     = Returned (ChatJson (mkChoice (mkMessage []) :: rest) model)) ->
  expandQuery provider this query context = Returned [mkQueryable (js "vec") query].
Proof.
  intros Hanswer. unfold expandQuery. rewrite expandQuery_request.
  destruct Hanswer as [[e He] | [(data & model & He) | [(model & He) | (rest & model & He)]]];
    rewrite He; reflexivity.
Qed.

End Parsing.

Lemma expand_line_accepts_witness :
  expand_line (H := ascii_only_tables) (js "q") []
              (js "VEC" ++ 58 :: js " " ++ 120 :: js "y ")
  = Returned (if str_eqb (trim (120 :: js "y ")) (js "q") then []
              else [] ++ [mkQueryable (js "vec") (trim (120 :: js "y "))]).
Proof.
  apply (expand_line_accepts (H := ascii_only_tables) (js "q") [] (js "vec") (js "VEC")
           (js " ") 120 (js "y ")).
  - now left.
  - split; reflexivity.
  - repeat constructor.
  - reflexivity.
  - repeat constructor.
Defined.

Lemma line_ending_in_terminator_is_skipped_witness :
  String_match (H := ascii_only_tables) (js "vec: a" ++ [13]) true line_pattern = None /\
  expand_line (H := ascii_only_tables) (js "q") [] (js "vec: a" ++ [13]) = Returned [].
Proof.
  apply (line_ending_in_terminator_is_skipped (H := ascii_only_tables) (js "q") []
           (js "vec: a") 13).
  reflexivity.
Defined.

Lemma expandQuery_sends_one_request_witness :
  expandQuery (H := ascii_only_tables) provider_chatting default_client (js "q") None
  = expandQuery (H := ascii_only_tables) provider_chat_only default_client (js "q") None.
Proof.
  apply (expandQuery_sends_one_request (H := ascii_only_tables) provider_chatting
           provider_chat_only default_client (js "q") None).
  reflexivity.
Defined.

Lemma expandQuery_falls_back_to_query_witness :
  expandQuery (H := ascii_only_tables) provider_down default_client (js "test query") None
  = Returned [mkQueryable (js "vec") (js "test query")].
Proof.
  apply (expandQuery_falls_back_to_query (H := ascii_only_tables) provider_down
           default_client (js "test query") None).
  left. unfold failed, provider_down. eauto.
Defined.

Section Format.
Context `{UnicodeTables}.

Lemma split_from_piece (sep : N) (cur p rest : jsstring) :
  sep ∉ p ->
  split_from sep cur (p ++ rest) = split_from sep (rev p ++ cur) rest.
Proof.
  revert cur. induction p as [|c p IH]; intros cur Hp; [reflexivity|].
  apply not_elem_of_cons in Hp as [Hc Hp]. cbn [app split_from].
  rewrite (proj2 (N.eqb_neq c sep)) by congruence.
  rewrite IH by exact Hp. cbn [rev]. now rewrite <- app_assoc.
Qed.

Lemma split_from_join (sep : N) (cur p : jsstring) (ps : list jsstring) :
  Forall (fun q => sep ∉ q) (p :: ps) ->
  split_from sep cur (join sep (p :: ps)) = (rev cur ++ p) :: ps.
Proof.
  revert cur p. induction ps as [|q ps IH]; intros cur p Hall;
    inversion Hall as [|? ? Hp Hps]; subst.
  - cbn [join]. rewrite <- (app_nil_r p) at 1. rewrite split_from_piece by exact Hp.
    cbn [split_from]. now rewrite rev_app_distr, rev_involutive.
  - rewrite RuntimeProps.join_cons by discriminate.
    rewrite split_from_piece by exact Hp. cbn [split_from]. rewrite N.eqb_refl.
    rewrite rev_app_distr, rev_involutive. f_equal.
    rewrite (IH [] q Hps). reflexivity.
Qed.

Lemma case_variant_no_newline (pre w : jsstring) :
  ascii_case_variant pre w -> 10 ∉ w -> 10 ∉ pre.
Proof.
  intros [_ <-] Hw Hin. apply Hw.
  apply (list_elem_of_fmap_2 ascii_lower) in Hin. exact Hin.
Qed.

Lemma render_line_no_newline (l : formatted_line) :
  well_formed_line l -> 10 ∉ render_line l.
Proof.
  intros (Hword & Hspace & _ & Hbody). unfold render_line.
  rewrite elem_of_app, elem_of_cons, elem_of_app.
  intros [Hin | [Hin | [Hin | Hin]]].
  - destruct Hword as [Hw|Hw]; revert Hin; apply (case_variant_no_newline _ _ Hw);
      apply (bool_decide_unpack _); vm_compute; exact I.
  - discriminate.
  - rewrite Forall_forall in Hspace. now destruct (Hspace _ Hin).
  - rewrite Forall_forall in Hbody. now pose proof (Hbody _ Hin).
Qed.

Lemma for_of_formatted_lines (query : jsstring) (ls : list formatted_line)
    (queryables : list Queryable) :
  Forall well_formed_line ls ->
  for_of (map render_line ls) (expand_line query) queryables
  = Returned (queryables ++ filter (fun q => qtext q <> query) (map read_line ls)).
Proof.
  intros Hls. revert queryables.
  induction Hls as [|l ls (Hword & Hspace & Hfirst & Hbody) _ IH]; intros queryables;
    cbn [map for_of].
  - now rewrite app_nil_r.
  - assert (Hline : expand_line query queryables (render_line l)
                    = Returned (if str_eqb (qtext (read_line l)) query then queryables
                                else queryables ++ [read_line l])).
    { unfold expand_line, render_line, read_line. cbn [qtext].
      rewrite (line_pattern_accepts (fl_word l) (fl_space l) (fl_first l) (fl_rest l));
        [|exact Hword|eapply Forall_impl; [exact Hspace|now intros c [Hc _]]
         |exact Hfirst|exact Hbody].
      cbn [group Nat.eqb deref mbind outcome_bind].
      assert (Hlower : toLowerCase (fl_word l) = map ascii_lower (fl_word l)).
      { unfold toLowerCase. now destruct Hword as [[-> _]|[-> _]]. }
      rewrite Hlower.
      destruct (trim (fl_first l :: fl_rest l)) as [|t ts] eqn:Htrim.
      - now apply RuntimeProps.trim_nonempty in Htrim.
      - cbn [truthy andb]. destruct (str_eqb (t :: ts) query); reflexivity. }
    rewrite Hline. cbn [mbind outcome_bind]. unfold str_eqb.
    destruct (bool_decide_reflect (qtext (read_line l) = query)) as [Heq|Hne].
    + rewrite IH. rewrite filter_cons_False by (intros Hq; now apply Hq). reflexivity.
    + rewrite IH. rewrite filter_cons_True by exact Hne. now rewrite <- app_assoc.
Qed.

(** X26. A generated text in the format the prompt asks for is read back in
    full: when the text is a sequence of well-formed lines separated by
    newlines (with no white space at its ends), [expandQuery] returns the
    original query followed by the variant of every line, in order, leaving
    out only the variants whose text is the query itself. *)
Theorem expandQuery_reads_formatted_text (ls : list formatted_line)
    (model query : jsstring) :
  ls <> [] ->
  Forall well_formed_line ls ->
  trim (join 10 (map render_line ls)) = join 10 (map render_line ls) ->
  expandQuery_from
    (Returned (Some (mkGenerateResult (join 10 (map render_line ls)) model true))) query
  = Returned (mkQueryable (js "vec") query
              :: filter (fun q => qtext q <> query) (map read_line ls)).
Proof.
  intros Hne Hls Htrim. unfold expandQuery_from.
  cbn [mbind outcome_bind try_catch text]. rewrite Htrim.
  assert (Hsplit : split (join 10 (map render_line ls)) 10 = map render_line ls).
  { destruct ls as [|l ls]; [congruence|]. cbn [map]. unfold split.
    rewrite split_from_join; [reflexivity|].
    change (render_line l :: map render_line ls) with (map render_line (l :: ls)).
    apply Forall_forall. intros line Hin.
    apply list_elem_of_In, in_map_iff in Hin as (fl & <- & Hfl).
    apply render_line_no_newline.
    rewrite Forall_forall in Hls. apply Hls. now apply list_elem_of_In. }
  rewrite Hsplit, (for_of_formatted_lines query ls [] Hls). reflexivity.
Qed.

End Format.

Lemma expandQuery_reads_formatted_text_witness :
  expandQuery_from (H := ascii_only_tables)
    (Returned (Some (mkGenerateResult (join 10 (map render_line formatted_lines))
                                      DEFAULT_CHAT_MODEL true)))
    (js "how to configure authentication")
  = Returned (mkQueryable (js "vec") (js "how to configure authentication")
              :: filter (fun q => qtext q <> js "how to configure authentication")
                        (map read_line formatted_lines)).
Proof.
  apply (expandQuery_reads_formatted_text (H := ascii_only_tables) formatted_lines
           DEFAULT_CHAT_MODEL (js "how to configure authentication")).
  - discriminate.
  - unfold formatted_lines.
    repeat (constructor;
            [split; [first [left; split; reflexivity | right; split; reflexivity]
                    |split; [repeat constructor; discriminate
                            |split; [reflexivity|repeat constructor]]]|]).
    constructor.
  - vm_compute. reflexivity.
Defined.

End PatternProps.

(* ===================================================================== *)
(** * Further properties of [class OpenRouterLLM] *)
(* ===================================================================== *)

Module ClientProps.
Import JS LLM OpenRouter Samples.

(** ** Errors never leave the client *)

(** X11. No method of the client throws, whatever the provider does (failing,
    or answering with JSON of the wrong shape): [embed], [embedBatch],
    [generate], [expandQuery], [rerank] and [modelExists] all return. *)
Theorem client_methods_never_throw `{UnicodeTables} (provider : Provider)
    (this : OpenRouterLLM) :
  (forall text, exists r, embed provider this text = Returned r) /\
  (forall texts, exists r, embedBatch provider this texts = Returned r) /\
  (forall prompt options, exists r, generate provider this prompt options = Returned r) /\
  (forall query context, exists r, expandQuery provider this query context = Returned r) /\
  (forall query documents, exists r, rerank query documents = Returned r) /\
  (forall model, exists r, modelExists model = Returned r).
Proof.
  split; [|split; [|split; [|split; [|split]]]].
  - apply OpenRouterSpec.embed_never_throws.
  - apply OpenRouterSpec.embedBatch_never_throws.
  - apply OpenRouterSpec.generate_never_throws.
  - intros query context. unfold expandQuery.
    edestruct OpenRouterSpec.expandQuery_from_shape as (variants & Heq & _).
    eexists. exact Heq.
  - intros query documents. eexists. reflexivity.
  - intros model. eexists. reflexivity.
Qed.

(** ** embed and generate *)

(** X12. [embed] returns [null] exactly when its request fails or the answer
    has no [data]; on an answer with data it returns the embedding of the
    first item, whatever the item's index and whatever follows. *)
Theorem embed_null_exactly_on_failure (provider : Provider) (this : OpenRouterLLM)
    (text : jsstring) :
  (embed provider this text = Returned None <->
     failed (request provider this (js "/embeddings")
               (EmbeddingsBody (embedModel this) (InputText text))) \/
     exists choices model,
       request provider this (js "/embeddings")
               (EmbeddingsBody (embedModel this) (InputText text))
       = Returned (ChatJson choices model)) /\
  (forall item rest model,
     request provider this (js "/embeddings")
             (EmbeddingsBody (embedModel this) (InputText text))
     = Returned (EmbeddingsJson (item :: rest) model) ->
     embed provider this text
     = Returned (Some (mkEmbeddingResult (item_embedding item) model))).
Proof.
  unfold embed.
  destruct (request provider this _ _) as [[data model|choices model]|e];
    cbn [response_data mbind outcome_bind try_catch mret outcome_ret].
  - split.
    + split; [discriminate|]. intros [[e He]|(c & m & He)]; discriminate.
    + intros item rest model' [= -> ->]. reflexivity.
  - split.
    + split; [|reflexivity]. intros _. right. eauto.
    + intros item rest model' Hr. discriminate.
  - split.
    + split; [|reflexivity]. intros _. left. unfold failed. eauto.
    + intros item rest model' Hr. discriminate.
Qed.

(** X13. [generate] returns [null] exactly when its request fails or the
    answer has no [choices]; otherwise the result is done, carries the model
    of the answer, and its text is the content of the first choice, or the
    empty string when there is no choice. *)
Theorem generate_null_exactly_on_failure (provider : Provider) (this : OpenRouterLLM)
    (prompt : jsstring) (options : GenerateOptions) :
  (generate provider this prompt options = Returned None <->
     failed (request provider this (js "/chat/completions")
               (ChatBody (chatModel this) prompt
                         (num_or (maxTokens options) 500%float)
                         (num_or (temperature options) 0%float))) \/
     exists data model,
       request provider this (js "/chat/completions")
               (ChatBody (chatModel this) prompt
                         (num_or (maxTokens options) 500%float)
                         (num_or (temperature options) 0%float))
       = Returned (EmbeddingsJson data model)) /\
  (forall choices model,
     request provider this (js "/chat/completions")
             (ChatBody (chatModel this) prompt
                       (num_or (maxTokens options) 500%float)
                       (num_or (temperature options) 0%float))
     = Returned (ChatJson choices model) ->
     generate provider this prompt options
     = Returned (Some (mkGenerateResult
                         (match choices with
                          | c :: _ => content (message c)
                          | [] => []
                          end) model true))).
Proof.
  unfold generate.
  destruct (request provider this _ _) as [[data model|choices model]|e];
    cbn [response_choices mbind outcome_bind try_catch mret outcome_ret].
  - split.
    + split; [|reflexivity]. intros _. right. eauto.
    + intros choices model' Hr. discriminate.
  - split.
    + split; [discriminate|]. intros [[e He]|(d & m & He)]; discriminate.
    + intros choices' model' [= -> ->]. do 3 f_equal.
      destruct choices' as [|[[c]] rest]; [reflexivity|]. cbn. now destruct c.
  - split.
    + split; [|reflexivity]. intros _. left. unfold failed. eauto.
    + intros choices model' Hr. discriminate.
Qed.

(** ** embedBatch *)

(** X14. [embedBatch] is all or nothing: its result is either a [null] for
    every input text (no texts, a failed request, an answer without [data])
    or holds no [null] at all, and then has one entry per item of the answer,
    whatever the number of texts. *)
Theorem embedBatch_all_or_nothing (provider : Provider) (this : OpenRouterLLM)
    (texts : list jsstring) :
  exists batch,
    embedBatch provider this texts = Returned batch /\
    ((Forall (fun r => r = None) batch /\ length batch = length texts) \/
     (Forall (fun r => r <> None) batch /\
      exists data model,
        request provider this (js "/embeddings")
                (EmbeddingsBody (embedModel this) (InputTexts texts))
        = Returned (EmbeddingsJson data model) /\
        length batch = length data)).
Proof.
  unfold embedBatch. destruct texts as [|t texts].
  { exists []. split; [reflexivity|]. left. split; [constructor|reflexivity]. }
  cbn [length Nat.eqb].
  destruct (request provider this _ _) as [[data model|choices model]|e];
    cbn [response_data mbind outcome_bind try_catch mret outcome_ret].
  - eexists. split; [reflexivity|]. right. split.
    + apply Forall_forall. intros r Hr. apply list_elem_of_In, in_map_iff in Hr as (x & <- & _).
      discriminate.
    + exists data, model. split; [reflexivity|].
      rewrite length_map. apply Permutation_length, JSFacts.sort_Permutation.
  - eexists. split; [reflexivity|]. left. split.
    + apply Forall_forall. intros r Hr. apply list_elem_of_In, in_map_iff in Hr as (x & <- & _).
      reflexivity.
    + apply length_map.
  - eexists. split; [reflexivity|]. left. split.
    + apply Forall_forall. intros r Hr. apply list_elem_of_In, in_map_iff in Hr as (x & <- & _).
      reflexivity.
    + apply length_map.
Qed.

(** X15. On an answer with data, [embedBatch] returns the items of the answer
    sorted by their index: every item once, indices ascending, items with the
    same index in the order of the answer. *)
Theorem embedBatch_returns_items_by_index (provider : Provider) (this : OpenRouterLLM)
    (texts : list jsstring) (data : list EmbeddingItem) (model : jsstring) :
  texts <> [] ->
  request provider this (js "/embeddings")
          (EmbeddingsBody (embedModel this) (InputTexts texts))
  = Returned (EmbeddingsJson data model) ->
  exists sorted,
    embedBatch provider this texts
    = Returned (map (fun item => Some (mkEmbeddingResult (item_embedding item) model)) sorted) /\
    sorted ≡ₚ data /\
    StronglySorted (fun a b => (item_index a <= item_index b)%Z) sorted /\
    (forall k : Z,
       filter (fun item => item_index item = k) sorted
       = filter (fun item => item_index item = k) data).
Proof.
  intros Hne Hresp.
  exists (sort (fun a b => (item_index a - item_index b)%Z) data).
  split; [|split; [|split]].
  - unfold embedBatch. destruct texts as [|t texts]; [congruence|].
    cbn [length Nat.eqb]. rewrite Hresp. reflexivity.
  - apply (JSFacts.sort_Permutation item_index).
  - apply (JSFacts.sort_StronglySorted item_index).
  - intros k. unfold sort.
    rewrite (RuntimeProps.sort_fold_filter item_index k data []) by constructor.
    reflexivity.
Qed.

Lemma embedBatch_returns_items_by_index_witness :
  exists sorted,
    embedBatch provider_rearranging default_client three_texts
    = Returned (map (fun item => Some (mkEmbeddingResult (item_embedding item)
                                                          DEFAULT_EMBED_MODEL)) sorted) /\
    sorted ≡ₚ items_rearranged /\
    StronglySorted (fun a b => (item_index a <= item_index b)%Z) sorted /\
    (forall k : Z,
       filter (fun item => item_index item = k) sorted
       = filter (fun item => item_index item = k) items_rearranged).
Proof.
  apply (embedBatch_returns_items_by_index provider_rearranging default_client three_texts
           items_rearranged DEFAULT_EMBED_MODEL).
  - discriminate.
  - reflexivity.
Defined.

(** ** The constructor and the dimensions *)

Lemma or_undef_None (a b : option jsstring) :
  or_else (or_undef a b) [] = [] <->
  (a = None \/ a = Some []) /\ (b = None \/ b = Some []).
Proof.
  destruct a as [[|c a]|], b as [[|d b]|]; cbn; split;
    try (intros [[?|?] [?|?]]; discriminate); try discriminate; auto.
Qed.

Lemma or_else_nonempty (a : option jsstring) (d : jsstring) : d <> [] -> or_else a d <> [].
Proof. intros Hd. destruct a as [[|c a]|]; cbn; [exact Hd|discriminate|exact Hd]. Qed.

(** X16. The constructor throws exactly when neither the configuration nor
    the environment supplies a non-empty API key: an empty string counts as
    no key, in either place. *)
Theorem constructor_throws_exactly_without_key (env : Env) (config : OpenRouterConfig) :
  failed (constructor env config) <->
  (cfg_apiKey config = None \/ cfg_apiKey config = Some []) /\
  (env !! js "OPENROUTER_API_KEY" = None \/ env !! js "OPENROUTER_API_KEY" = Some []).
Proof.
  rewrite OpenRouterSpec.constructor_throws_iff.
  change (js "") with (@nil N). apply or_undef_None.
Qed.

(** X17. Every instance the constructor returns is complete: its API key,
    both model names and the base URL are non-empty strings. *)
Theorem constructed_instance_is_complete (env : Env) (config : OpenRouterConfig)
    (llm : OpenRouterLLM) :
  constructor env config = Returned llm ->
  apiKey llm <> [] /\ embedModel llm <> [] /\ chatModel llm <> [] /\ baseUrl llm <> [].
Proof.
  unfold constructor.
  destruct (or_else (or_undef (cfg_apiKey config) _) _) as [|c k] eqn:Hkey;
    cbn [truthy negb]; [discriminate|].
  intros [= <-]. cbn [apiKey embedModel chatModel baseUrl].
  split; [discriminate|]. repeat split; apply or_else_nonempty; discriminate.
Qed.

Lemma constructed_instance_is_complete_witness :
  apiKey default_client <> [] /\ embedModel default_client <> [] /\
  chatModel default_client <> [] /\ baseUrl default_client <> [].
Proof.
  apply (constructed_instance_is_complete env_with_key empty_config default_client).
  vm_compute. reflexivity.
Defined.

(** X18. Where the constructor takes the embedding model from: the
    configuration when it names one, else the environment variable
    QMD_EMBED_MODEL, else the default; an empty string names none. The API
    key is taken from the configuration before the environment. *)
Theorem constructor_precedence (env : Env) (config : OpenRouterConfig) (llm : OpenRouterLLM) :
  constructor env config = Returned llm ->
  (forall m, cfg_embedModel config = Some m -> m <> [] -> embedModel llm = m) /\
  (cfg_embedModel config = None \/ cfg_embedModel config = Some [] ->
   forall m, env !! js "QMD_EMBED_MODEL" = Some m -> m <> [] -> embedModel llm = m) /\
  (cfg_embedModel config = None \/ cfg_embedModel config = Some [] ->
   env !! js "QMD_EMBED_MODEL" = None \/ env !! js "QMD_EMBED_MODEL" = Some [] ->
   embedModel llm = DEFAULT_EMBED_MODEL) /\
  (forall k, cfg_apiKey config = Some k -> k <> [] -> apiKey llm = k) /\
  (cfg_apiKey config = None \/ cfg_apiKey config = Some [] ->
   env !! js "OPENROUTER_API_KEY" = Some (apiKey llm)).
Proof.
  unfold constructor.
  destruct (or_else (or_undef (cfg_apiKey config) _) _) as [|c k] eqn:Hkey;
    cbn [truthy negb]; [discriminate|].
  intros [= <-]. cbn [apiKey embedModel].
  split; [|split; [|split; [|split]]].
  - intros m -> Hm. destruct m; [congruence|reflexivity].
  - intros [-> | ->] m -> Hm; destruct m; try congruence; reflexivity.
  - intros [-> | ->] [-> | ->]; reflexivity.
  - intros k' Hk' Hne. rewrite Hk' in Hkey. destruct k'; [congruence|]. exact (eq_sym Hkey).
  - intros Hcfg.
    destruct (env !! js "OPENROUTER_API_KEY") as [[|d e]|];
      destruct Hcfg as [Hcfg|Hcfg]; rewrite Hcfg in Hkey; cbn in Hkey;
      try discriminate; now rewrite Hkey.
Qed.

Lemma constructor_precedence_witness :
  (forall m, cfg_embedModel empty_config = Some m -> m <> [] -> embedModel default_client = m) /\
  (cfg_embedModel empty_config = None \/ cfg_embedModel empty_config = Some [] ->
   forall m, env_with_key !! js "QMD_EMBED_MODEL" = Some m -> m <> [] ->
             embedModel default_client = m) /\
  (cfg_embedModel empty_config = None \/ cfg_embedModel empty_config = Some [] ->
   env_with_key !! js "QMD_EMBED_MODEL" = None \/
   env_with_key !! js "QMD_EMBED_MODEL" = Some [] ->
   embedModel default_client = DEFAULT_EMBED_MODEL) /\
  (forall k, cfg_apiKey empty_config = Some k -> k <> [] -> apiKey default_client = k) /\
  (cfg_apiKey empty_config = None \/ cfg_apiKey empty_config = Some [] ->
   env_with_key !! js "OPENROUTER_API_KEY" = Some (apiKey default_client)).
Proof.
  apply (constructor_precedence env_with_key empty_config default_client).
  vm_compute. reflexivity.
Defined.

Lemma declared_dimensions :
  map_Forall (fun _ d => d = 3072%Z \/ d = 1536%Z) EMBEDDING_DIMENSIONS.
Proof.
  unfold EMBEDDING_DIMENSIONS.
  repeat (apply map_Forall_insert_2; [auto|]). apply map_Forall_empty.
Qed.

(** X19. For a model of the table [getEmbeddingDimensions] answers the
    declared dimensionality, which is 3072 or 1536. *)
Theorem getEmbeddingDimensions_of_declared_model (this : OpenRouterLLM) (d : Z) :
  EMBEDDING_DIMENSIONS !! embedModel this = Some d ->
  getEmbeddingDimensions this = Returned (VNumber d) /\ (d = 3072 \/ d = 1536)%Z.
Proof.
  intros Hd. pose proof (declared_dimensions _ _ Hd) as Hval. split; [|exact Hval].
  unfold getEmbeddingDimensions, get_property. rewrite Hd. cbn [value_or].
  destruct Hval as [-> | ->]; reflexivity.
Qed.

Lemma getEmbeddingDimensions_of_declared_model_witness :
  getEmbeddingDimensions default_client = Returned (VNumber 3072) /\
  (3072 = 3072 \/ 3072 = 1536)%Z.
Proof.
  apply (getEmbeddingDimensions_of_declared_model default_client 3072).
  vm_compute. reflexivity.
Defined.

(** X20. An instance constructed without an embedding model in the
    configuration or in the environment uses the default model and reports
    3072 dimensions. *)
Theorem default_instance_has_3072_dimensions (env : Env) (config : OpenRouterConfig)
    (llm : OpenRouterLLM) :
  constructor env config = Returned llm ->
  cfg_embedModel config = None \/ cfg_embedModel config = Some [] ->
  env !! js "QMD_EMBED_MODEL" = None \/ env !! js "QMD_EMBED_MODEL" = Some [] ->
  embedModel llm = DEFAULT_EMBED_MODEL /\
  getEmbeddingDimensions llm = Returned (VNumber 3072).
Proof.
  unfold constructor.
  destruct (or_else (or_undef (cfg_apiKey config) _) _) as [|c k] eqn:Hkey;
    cbn [truthy negb]; [discriminate|].
  intros [= <-] Hcfg Henv.
  assert (Hmodel : or_else (or_undef (cfg_embedModel config) (env !! js "QMD_EMBED_MODEL"))
                           DEFAULT_EMBED_MODEL = DEFAULT_EMBED_MODEL).
  { destruct Hcfg as [-> | ->], Henv as [-> | ->]; reflexivity. }
  cbn [embedModel]. split; [exact Hmodel|].
  unfold getEmbeddingDimensions. cbn [embedModel]. rewrite Hmodel. vm_compute. reflexivity.
Qed.

Lemma default_instance_has_3072_dimensions_witness :
  embedModel default_client = DEFAULT_EMBED_MODEL /\
  getEmbeddingDimensions default_client = Returned (VNumber 3072).
Proof.
  apply (default_instance_has_3072_dimensions env_with_key empty_config default_client).
  - vm_compute. reflexivity.
  - now left.
  - left. vm_compute. reflexivity.
Defined.

(** ** rerank *)

#[warnings="-inexact-float"]
Lemma rerank_score_steps :
  forallb (fun i => (1 - num_of_nat (S i) * 0.01 <? 1 - num_of_nat i * 0.01)%float)
          (seq 0 1000) = true.
Proof. vm_compute. reflexivity. Qed.

(** X21. The scores of [rerank] keep the input order: the first document
    scores exactly 1 and, in a list of up to 1000 documents, every document
    scores strictly less than the one before it; the model is reported as
    "none". *)
Theorem rerank_scores_decay (query : jsstring) (documents : list RerankDocument) :
  (length documents <= 1000)%nat ->
  exists r,
    rerank query documents = Returned r /\
    rerank_model r = js "none" /\
    (forall res, results r !! 0%nat = Some res -> score res = 1%float) /\
    (forall (i : nat) r1 r2,
       results r !! i = Some r1 -> results r !! S i = Some r2 ->
       (score r2 <? score r1)%float = true).
Proof.
  intros Hlen. eexists. split; [reflexivity|]. cbn [results rerank_model].
  split; [reflexivity|]. split.
  - intros res. rewrite list_lookup_imap.
    destruct (documents !! 0%nat); cbn; [|discriminate]. intros [= <-]. reflexivity.
  - intros i r1 r2. rewrite !list_lookup_imap.
    destruct (documents !! i) eqn:H1; cbn; [|discriminate].
    destruct (documents !! S i) eqn:H2; cbn; [|discriminate].
    intros [= <-] [= <-]. cbn [score].
    apply lookup_lt_Some in H2.
    pose proof rerank_score_steps as Hsteps. rewrite forallb_forall in Hsteps.
    apply (Hsteps i). apply in_seq. lia.
Qed.

Lemma rerank_scores_decay_witness :
  exists r,
    rerank (js "query") three_documents = Returned r /\
    rerank_model r = js "none" /\
    (forall res, results r !! 0%nat = Some res -> score res = 1%float) /\
    (forall (i : nat) r1 r2,
       results r !! i = Some r1 -> results r !! S i = Some r2 ->
       (score r2 <? score r1)%float = true).
Proof.
  apply (rerank_scores_decay (js "query") three_documents). cbn. lia.
Defined.

End ClientProps.

(* ===================================================================== *)
(** * Further properties of the default instance *)
(* ===================================================================== *)

Module DefaultInstanceProps.
Import JS LLM OpenRouter DefaultLLM Samples.

(** X22. An instance given to [setDefaultLLM] is what [getDefaultLLM] returns
    from then on, without anything being constructed: so also in an
    environment without an API key, where constructing would throw. *)
Theorem injected_instance_is_returned (s : state) (r : ref) :
  exists s1,
    setDefaultLLM (Some r) s = (Returned tt, s1) /\
    objects s1 = objects s /\
    getDefaultLLM s1 = (Returned r, s1) /\
    getDefaultLlamaCpp s1 = (Returned r, s1).
Proof.
  eexists. split; [apply DefaultLLMSpec.setDefaultLLM_assigns|].
  split; [reflexivity|].
  split; apply DefaultLLMSpec.getDefaultLLM_held; reflexivity.
Qed.

(** X23. A failed construction is not remembered: without an API key and with
    no instance held, [getDefaultLLM] throws the constructor's error and
    leaves the module state exactly as it was, so the next call tries
    again. *)
Theorem getDefaultLLM_failure_leaves_state (s : state) :
  defaultLLM s = None ->
  env s !! js "OPENROUTER_API_KEY" = None \/ env s !! js "OPENROUTER_API_KEY" = Some [] ->
  getDefaultLLM s
  = (Thrown (js "OpenRouter API key required. Set OPENROUTER_API_KEY environment variable."),
     s).
Proof.
  intros Hnone Hkey. apply DefaultLLMSpec.getDefaultLLM_first_throws; [exact Hnone|].
  unfold constructor. cbn [cfg_apiKey empty_config or_undef].
  destruct Hkey as [-> | ->]; reflexivity.
Qed.

Lemma getDefaultLLM_failure_leaves_state_witness :
  getDefaultLLM (initial env_without_key)
  = (Thrown (js "OpenRouter API key required. Set OPENROUTER_API_KEY environment variable."),
     initial env_without_key).
Proof.
  apply (getDefaultLLM_failure_leaves_state (initial env_without_key)).
  - reflexivity.
  - left. reflexivity.
Defined.


(** ** What holds in every state the module can reach *)

Section Reachable.







End Reachable.


End DefaultInstanceProps.
